(** * dm-data-attribute-swapper: the column permutation engine of [main.py]

    A shallow embedding of [validate_config], [swap_data] and the control
    flow of [main], with the properties of the specification stated over
    them.

    Modelling decisions, in one place:
    - a parsed YAML document is a tree of Python values ([yaml]);
    - a pandas [DataFrame] is its row index, a list of row labels, and
      its columns in order, each a column label and a list of cells;
      column labels are strings, as [read_csv] makes them from a header;
      cells are opaque to the program, so their type is a parameter, with
      its missing value [nan];
    - assigning a series to a column aligns it on the row labels, as
      pandas does;
    - pandas and Python library calls that can raise return a [result];
    - the [logging] module is the list of calls made to it, oldest first;
    - the process-global random generator is the family of values its
      successive [random.randint] calls return, and the number of calls
      made so far;
    - [Series.sample] is the index order numpy picks for a seed and a
      length, followed by [take]. *)

From Stdlib Require Import List String Ascii ZArith Lia Bool Permutation PeanoNat.
Import ListNotations.

Set Implicit Arguments.
Set Warnings "-register-all".

Local Open Scope list_scope.

(** ** Python values *)

(** What [yaml.safe_load] returns for the JSON-like core of YAML: [None],
    booleans, integers, strings, lists and dicts.  A dict is its items in
    insertion order; keys are pairwise distinct.  The characters of a
    string are those of the [string] type. *)
Inductive yaml : Type :=
| YNull
| YBool (b : bool)
| YInt (z : Z)
| YStr (s : string)
| YList (items : list yaml)
| YDict (entries : list (yaml * yaml)).

(** The exception classes the program can meet. *)
Inductive exn : Type :=
| FileNotFoundError
| EmptyDataError
| KeyError
| TypeError
| ValueError
| IndexError
| OtherError.

Inductive result (A : Type) : Type :=
| Ok (a : A)
| Raise (e : exn).

Arguments Ok {A} a.
Arguments Raise {A} e.

Definition bind {A B : Type} (r : result A) (k : A -> result B) : result B :=
  match r with
  | Ok a => k a
  | Raise e => Raise e
  end.

Notation "x <- r ;; k" := (bind r (fun x => k))
  (at level 61, r at next level, right associativity).

(** ** Logging *)

Inductive level : Type := DEBUG | INFO | WARNING | ERROR | CRITICAL.

(** One constructor per message template of [main.py]; the arguments are
    the values interpolated into the f-string. *)
Inductive message : Type :=
| ConfigNotDict            (* "Configuration file must be a dictionary." *)
| ConfigMissingKey         (* "Configuration file must contain 'columns_to_swap'." *)
| ConfigNotList            (* "'columns_to_swap' must be a list." *)
| ConfigBadPair            (* "Each element in 'columns_to_swap' must be a list of two column names." *)
| ColumnsNotFound (col1 col2 : yaml)
                           (* "Column(s) '{col1}' or '{col2}' not found in the DataFrame." *)
| Swapped (col1 col2 : string)
                           (* "Swapped data between columns '{col1}' and '{col2}'." *)
| Starting                 (* "Starting dm-data-attribute-swapper" *)
| InvalidConfig            (* "Invalid configuration file. Exiting." *)
| UnsupportedFormat        (* "Unsupported file format. Only CSV and Excel files are supported." *)
| Loaded                   (* "Loaded data from '{data_file}' with shape: {df.shape}" *)
| Saved                    (* "Masked data saved to '{output_file}'" *)
| FileNotFound             (* "File not found: {e}" *)
| DataFileEmpty            (* "The data file '{data_file}' is empty." *)
| ErrorOccurred            (* "An error occurred: {e}" *)
| DetailedError            (* "Detailed error information:" with the traceback *)
| Completed.               (* "dm-data-attribute-swapper completed." *)

Definition record : Type := (level * message)%type.

(** The state of the process outside the table: how many times
    [random.randint] has been called, and the logging calls made. *)
Record world : Type := World {
  draws : nat;
  log : list record
}.

Definition logging (lv : level) (m : message) (w : world) : world :=
  World (draws w) (log w ++ [(lv, m)]).

Definition tick (w : world) : world := World (S (draws w)) (log w).

(** ** validate_config *)

(** [key in config] and [config[key]] for a string key. *)
Fixpoint dict_get (key : string) (entries : list (yaml * yaml)) : option yaml :=
  match entries with
  | [] => None
  | (YStr s, v) :: rest => if String.eqb s key then Some v else dict_get key rest
  | _ :: rest => dict_get key rest
  end.

(** The loop of [validate_config] over the elements of [columns_to_swap]. *)
Fixpoint validate_pairs (columns_to_swap : list yaml) (w : world) : bool * world :=
  match columns_to_swap with
  | [] => (true, w)
  | YList items :: rest =>
      if Nat.eqb (List.length items) 2 then validate_pairs rest w
      else (false, logging ERROR ConfigBadPair w)
  | _ :: _ => (false, logging ERROR ConfigBadPair w)
  end.

Definition validate_config (config : yaml) (w : world) : bool * world :=
  match config with
  | YDict entries =>
      match dict_get "columns_to_swap" entries with
      | None => (false, logging ERROR ConfigMissingKey w)
      | Some (YList columns_to_swap) => validate_pairs columns_to_swap w
      | Some _ => (false, logging ERROR ConfigNotList w)
      end
  | _ => (false, logging ERROR ConfigNotDict w)
  end.

(** ** Row labels *)

(** The label of a row: an integer or a string.  [read_csv] numbers the
    rows [0..N-1] when every row has as many fields as the header, and
    takes the first field of each row as its label when the rows have one
    field more. *)
Inductive label : Type :=
| IntLabel (i : Z)
| StrLabel (s : string).

Definition label_eqb (l1 l2 : label) : bool :=
  match l1, l2 with
  | IntLabel i, IntLabel j => Z.eqb i j
  | StrLabel s, StrLabel t => String.eqb s t
  | _, _ => false
  end.

(** [index1.equals(index2)] *)
Fixpoint index_equals (index1 index2 : list label) : bool :=
  match index1, index2 with
  | [], [] => true
  | l1 :: rest1, l2 :: rest2 => label_eqb l1 l2 && index_equals rest1 rest2
  | _, _ => false
  end.

(** [RangeIndex(n)]: the labels [0..n-1]. *)
Definition RangeIndex (n : nat) : list label :=
  map (fun k => IntLabel (Z.of_nat k)) (seq 0 n).

(** A type of cells with its missing value. *)
Class Missing (V : Type) : Type := nan : V.

(** ** The table *)

Section Engine.

(** The type of a cell, and [NaN]. *)
Variable V : Type.
Context {missing : Missing V}.

Definition column : Type := list V.

(** [index] is [df.index]; [cols] the columns, left to right. *)
Record DataFrame : Type := Frame {
  index : list label;
  cols : list (string * column)
}.

(** [len(df.index)] *)
Definition nrows (df : DataFrame) : nat := List.length (index df).

(** [df.columns] *)
Definition columns (df : DataFrame) : list string := map fst (cols df).

(** Every column is aligned with the index. *)
Definition aligned (df : DataFrame) : Prop :=
  forall c v, In (c, v) (cols df) -> List.length v = nrows df.

Fixpoint lookup (c : string) (l : list (string * column)) : option column :=
  match l with
  | [] => None
  | (c', v) :: rest => if String.eqb c c' then Some v else lookup c rest
  end.

(** [df[c]]: the column, [KeyError] when there is none. *)
Definition getitem (df : DataFrame) (c : string) : result column :=
  match lookup c (cols df) with
  | Some v => Ok v
  | None => Raise KeyError
  end.

Fixpoint assign (c : string) (v : column) (l : list (string * column))
  : list (string * column) :=
  match l with
  | [] => [(c, v)]
  | (c', v') :: rest =>
      if String.eqb c c' then (c', v) :: rest else (c', v') :: assign c v rest
  end.

(** [df[c] = v] for values [v] that are already in the order of the rows
    of [df]: replaces the column labelled [c] where it stands, or adds it
    after the last column.  This is the assignment of lines 74 and 75,
    whose right-hand side is a column of [df] itself: the series carries
    the index of the frame, [value.index.equals(df.index)] holds and
    pandas stores its values as they are. *)
Definition setitem (df : DataFrame) (c : string) (v : column) : DataFrame :=
  Frame (index df) (assign c v (cols df)).

(** [series.reindex(idx)] for a series whose index is [0..len-1]: each row
    of the target takes the value the series has at its label, [NaN] when
    the series has no such label. *)
Definition reindex (values : column) (idx : list label) : column :=
  map (fun l =>
         match l with
         | IntLabel i =>
             if (i <? 0)%Z then nan else nth (Z.to_nat i) values nan
         | StrLabel _ => nan
         end) idx.

(** What [df[c] = series] stores for a series whose index is [0..len-1]
    and a frame of index [idx]: the values as they are when the two
    indexes are equal, the series reindexed on [idx] otherwise.  (The
    shortcut pandas takes for an empty frame gives the same: the series
    assigned by [swap_data] then has no row.) *)
Definition align (idx : list label) (values : column) : column :=
  if index_equals (RangeIndex (List.length values)) idx then values
  else reindex values idx.

Definition remove_label (c : string) (l : list (string * column))
  : list (string * column) :=
  filter (fun cv => negb (String.eqb c (fst cv))) l.

(** [df.drop(columns=[c], inplace=True)]: [KeyError] when [c] is not a
    label. *)
Definition drop (df : DataFrame) (c : string) : result DataFrame :=
  if existsb (String.eqb c) (columns df)
  then Ok (Frame (index df) (remove_label c (cols df)))
  else Raise KeyError.

(** [series.take(indices)] followed by [reset_index(drop=True)]: the cells
    at the given positions, in that order; [IndexError] out of bounds. *)
Fixpoint take (s : column) (indices : list nat) : result column :=
  match indices with
  | [] => Ok []
  | i :: rest =>
      match nth_error s i with
      | None => Raise IndexError
      | Some v => vs <- take s rest ;; Ok (v :: vs)
      end
  end.

(** ** Randomness *)

(** [randint k a b] is what the [k]-th call of the run to
    [random.randint(a, b)] returns. *)
Variable randint : nat -> Z -> Z -> Z.

(** [sample_order seed n] is the order in which
    [numpy.random.RandomState(seed).choice(n, size=n, replace=False)] lists
    the positions [0..n-1]; it is what [Series.sample(frac=1,
    random_state=seed)] passes to [take] on a series of [n] rows. *)
Variable sample_order : Z -> nat -> list nat.

(** The contract of [random.randint]: a value between its bounds. *)
Definition randint_in_range : Prop :=
  forall k a b, (a <= b)%Z -> (a <= randint k a b <= b)%Z.

(** The contract of sampling without replacement: every position once. *)
Definition samples_every_row : Prop :=
  forall seed n, Permutation (sample_order seed n) (seq 0 n).

(** The orders [swap_data] can apply to a column of [n] rows: those the
    sampler gives for a seed that [random.randint(0, 1000)] can return. *)
Definition reachable_order (n : nat) (p : list nat) : Prop :=
  exists seed, (0 <= seed <= 1000)%Z /\ sample_order seed n = p.

(** Every ordering of [0..n-1] can be drawn. *)
Definition all_orders_reachable (n : nat) : Prop :=
  forall p, Permutation p (seq 0 n) -> reachable_order n p.

(** [df[c].sample(frac=1, random_state=seed).reset_index(drop=True)]: the
    values of the series; its index is [0..len-1] after [reset_index]. *)
Definition sample_all (s : column) (seed : Z) : result column :=
  take s (sample_order seed (List.length s)).

(** ** swap_data *)

Definition temp_name (col2 : string) : string := ("temp_" ++ col2)%string.

(** [key in df.columns], returning the label found.  Hashing a list or a
    dict raises [TypeError]; a hashable key that is not a string equals no
    label. *)
Definition find_label (df : DataFrame) (key : yaml) : result (option string) :=
  match key with
  | YList _ | YDict _ => Raise TypeError
  | YStr s => Ok (if existsb (String.eqb s) (columns df) then Some s else None)
  | _ => Ok None
  end.

(** The target list [col1, col2] of the [for] statement: unpacking of one
    element of [columns_to_swap].  A list, a string and a dict are
    iterable (a string over its characters, a dict over its keys); two
    items are required. *)
Definition unpack2 (swap_pair : yaml) : result (yaml * yaml) :=
  match swap_pair with
  | YList [col1; col2] => Ok (col1, col2)
  | YList _ => Raise ValueError
  | YStr (String a (String b EmptyString)) =>
      Ok (YStr (String a EmptyString), YStr (String b EmptyString))
  | YStr _ => Raise ValueError
  | YDict [(col1, _); (col2, _)] => Ok (col1, col2)
  | YDict _ => Raise ValueError
  | _ => Raise TypeError
  end.

(** Line 71: the scratch column, set to the shuffled values of [col2]
    aligned on the row labels of the frame. *)
Definition with_temp (seed : Z) (df : DataFrame) (col2 : string) : result DataFrame :=
  c2 <- getitem df col2 ;;
  shuffled <- sample_all c2 seed ;;
  Ok (setitem df (temp_name col2) (align (index df) shuffled)).

(** Lines 69-78: the four statements on the table once both labels are
    known to exist. *)
Definition swap_columns (seed : Z) (df : DataFrame) (col1 col2 : string)
  : result DataFrame :=
  let temp_col := temp_name col2 in
  df1 <- with_temp seed df col2 ;;
  c1 <- getitem df1 col1 ;;
  let df2 := setitem df1 col2 c1 in
  t <- getitem df2 temp_col ;;
  let df3 := setitem df2 col1 t in
  drop df3 temp_col.

(** The columns those statements leave, given the shuffled scratch values
    and the value [x] read from [col1] once the scratch column is set. *)
Definition swapped_cols (c1 c2 : string) (shuffled x : column)
    (l : list (string * column)) : list (string * column) :=
  remove_label (temp_name c2)
    (assign c1 shuffled (assign c2 x (assign (temp_name c2) shuffled l))).

(** One iteration of the [for] loop. *)
Definition swap_iteration (df : DataFrame) (swap_pair : yaml) (w : world)
  : result DataFrame * world :=
  match unpack2 swap_pair with
  | Raise e => (Raise e, w)
  | Ok (col1, col2) =>
      match find_label df col1 with
      | Raise e => (Raise e, w)
      | Ok None => (Ok df, logging ERROR (ColumnsNotFound col1 col2) w)
      | Ok (Some c1) =>
          match find_label df col2 with
          | Raise e => (Raise e, w)
          | Ok None => (Ok df, logging ERROR (ColumnsNotFound col1 col2) w)
          | Ok (Some c2) =>
              let seed := randint (draws w) 0 1000 in
              let w := tick w in
              match swap_columns seed df c1 c2 with
              | Raise e => (Raise e, w)
              | Ok df' => (Ok df', logging INFO (Swapped c1 c2) w)
              end
          end
      end
  end.

(** [swap_data(df, columns_to_swap)]; the table returned is the table
    received, after the mutations. *)
Fixpoint swap_data (df : DataFrame) (columns_to_swap : list yaml) (w : world)
  : result DataFrame * world :=
  match columns_to_swap with
  | [] => (Ok df, w)
  | swap_pair :: rest =>
      match swap_iteration df swap_pair w with
      | (Ok df', w') => swap_data df' rest w'
      | (Raise e, w') => (Raise e, w')
      end
  end.

(** ** main *)

(** What the run finds outside the process: the outcome of each call that
    reaches the file system. *)
Record environment : Type := Environment {
  (** [open(args.config_file)] then [yaml.safe_load(f)] *)
  load_config : result yaml;
  (** [os.path.splitext(args.data_file)[1].lower()] *)
  file_extension : string;
  (** [pd.read_csv(args.data_file)] *)
  read_csv : result DataFrame;
  (** [pd.read_excel(args.data_file)] *)
  read_excel : result DataFrame;
  (** [df.to_csv(args.output_file, index=False)] *)
  to_csv : result unit
}.

(** How the [try] block is left. *)
Inductive completion : Type :=
| Returned              (* a [return] statement *)
| Finished              (* the end of the block *)
| Raised (e : exn).     (* an exception, for the handlers *)

(** [config["columns_to_swap"]], as the iterable handed to [swap_data]. *)
Definition columns_to_swap_of (config : yaml) : result (list yaml) :=
  match config with
  | YDict entries =>
      match dict_get "columns_to_swap" entries with
      | Some (YList l) => Ok l
      | Some _ => Raise TypeError
      | None => Raise KeyError
      end
  | _ => Raise TypeError
  end.

(** The data file loader chosen by the extension; [None] when the
    extension is not supported. *)
Definition load_data (env : environment) : option (result DataFrame) :=
  if String.eqb (file_extension env) ".csv" then Some (read_csv env)
  else if String.eqb (file_extension env) ".xlsx"
          || String.eqb (file_extension env) ".xls"
  then Some (read_excel env)
  else None.

(** The body of the [try] statement of [main] (lines 102-127).  The second
    component is the table [to_csv] has written; there is none when the
    block is left before that call or when the call raises. *)
Definition main_try (env : environment) (w : world)
  : completion * option DataFrame * world :=
  match load_config env with
  | Raise e => (Raised e, None, w)
  | Ok config =>
      let (valid, w) := validate_config config w in
      if negb valid then (Returned, None, logging ERROR InvalidConfig w)
      else
        match load_data env with
        | None => (Returned, None, logging ERROR UnsupportedFormat w)
        | Some (Raise e) => (Raised e, None, w)
        | Some (Ok df) =>
            let w := logging INFO Loaded w in
            match columns_to_swap_of config with
            | Raise e => (Raised e, None, w)
            | Ok columns_to_swap =>
                match swap_data df columns_to_swap w with
                | (Raise e, w) => (Raised e, None, w)
                | (Ok df, w) =>
                    match to_csv env with
                    | Raise e => (Raised e, None, w)
                    | Ok _ => (Finished, Some df, logging INFO Saved w)
                    end
                end
            end
        end
  end.

(** The [except] clauses, in their order. *)
Definition handle (e : exn) (w : world) : world :=
  match e with
  | FileNotFoundError => logging ERROR FileNotFound w
  | EmptyDataError => logging ERROR DataFileEmpty w
  | _ => logging ERROR DetailedError (logging ERROR ErrorOccurred w)
  end.

(** [main()], from the first [logging.info] on: the output file written
    (if any) and the state of the process at the end. *)
Definition main (env : environment) (w : world) : option DataFrame * world :=
  match main_try env (logging INFO Starting w) with
  | (Returned, out, w) => (out, w)
  | (Finished, out, w) => (out, logging INFO Completed w)
  | (Raised e, out, w) => (out, logging INFO Completed (handle e w))
  end.

End Engine.

Arguments Frame {V} index cols.
Arguments Environment {V} load_config file_extension read_csv read_excel to_csv.

(** ** Concrete tables, generators and configurations *)

(** An element [[col1, col2]] of [columns_to_swap]. *)
Definition pair_of (col1 col2 : string) : yaml := YList [YStr col1; YStr col2].

(** A generator whose [randint(a, b)] always returns [a]. *)
Definition low_draw (k : nat) (a b : Z) : Z := a.

(** A sampler that lists the rows from last to first, whatever the seed. *)
Definition reversed_order (seed : Z) (n : nat) : list nat := rev (seq 0 n).

Definition fresh_world : world := World 0 [].

(** The configuration [{columns_to_swap: l}]. *)
Definition config_of (l : list yaml) : yaml := YDict [(YStr "columns_to_swap", YList l)].

(** Cells for the tables of the examples. *)
Inductive cell : Type :=
| Num (z : Z)
| Text (s : string)
| NaN.

#[export] Instance cell_missing : Missing cell := NaN.

(** The rows of a table are numbered [0..N-1]. *)
Definition default_index {V : Type} (df : DataFrame V) : Prop :=
  index df = RangeIndex (nrows df).

(** Two columns, two rows. *)
Definition table_ab : DataFrame cell :=
  Frame (RangeIndex 2) [("a"%string, [Num 1; Num 2]); ("b"%string, [Num 3; Num 4])].

(** The same with a third column that bears the scratch name of [b]. *)
Definition table_scratch : DataFrame cell :=
  Frame (RangeIndex 2) [("a"%string, [Num 1; Num 2]); ("b"%string, [Num 3; Num 4]);
           ("temp_b"%string, [Num 5; Num 6])].

(** Three columns, one row. *)
Definition table_abc : DataFrame cell :=
  Frame (RangeIndex 1) [("A"%string, [Num 1]); ("B"%string, [Num 2]); ("C"%string, [Num 3])].

(** The table of the scenarios of the specification. *)
Definition people : DataFrame cell :=
  Frame (RangeIndex 3) [("name"%string, [Text "ann"; Text "bob"; Text "cy"]);
           ("age"%string, [Num 31; Num 45; Num 27]);
           ("city"%string, [Text "oslo"; Text "rome"; Text "lima"])].

(** The table [a], [b] read from a file whose rows have a leading field
    more than the header: [x,1,3] and [y,2,4].  The leading fields are the
    row labels. *)
Definition table_xy : DataFrame cell :=
  Frame [StrLabel "x"; StrLabel "y"]
    [("a"%string, [Num 1; Num 2]); ("b"%string, [Num 3; Num 4])].

(** Two columns of which the first bears the scratch name of the
    second. *)
Definition table_temp_first : DataFrame cell :=
  Frame (RangeIndex 2)
    [("temp_b"%string, [Num 1; Num 2]); ("b"%string, [Num 3; Num 4])].

(** A header and no row. *)
Definition header_only : DataFrame cell :=
  Frame (RangeIndex 0) [("a"%string, []); ("b"%string, [])].

(** The elements of a configuration whose pairs are pairs of names. *)
Definition pairs_of (names : list (string * string)) : list yaml :=
  map (fun p => pair_of (fst p) (snd p)) names.

(** A configuration with no pair, a [.csv] file that parses to a header
    and no row, and a destination that can be written. *)
Definition header_only_run : environment cell :=
  Environment (Ok (config_of [])) ".csv"%string
    (Ok header_only) (Raise OtherError) (Ok tt).

(** A valid configuration and a [.csv] file that is not there. *)
Definition missing_data_run : environment cell :=
  Environment (Ok (config_of [pair_of "a" "b"])) ".csv"%string
    (Raise FileNotFoundError) (Raise FileNotFoundError) (Ok tt).

(** A configuration whose pair holds two integers. *)
Definition integer_pair_config : yaml := config_of [YList [YInt 1; YInt 2]].

(** [columns_to_swap] is a string. *)
Definition string_config : yaml :=
  YDict [(YStr "columns_to_swap", YStr "age,city")].

(** ** Vocabulary for whole runs *)

(** All the cells of the table, column after column. *)
Definition cells {V : Type} (df : DataFrame V) : list V :=
  List.concat (map snd (cols df)).

(** No pair of the configuration has its scratch label among the labels
    of the table. *)
Definition no_scratch_label {V : Type} (df : DataFrame V)
    (names : list (string * string)) : Prop :=
  forall a b, In (a, b) names -> ~ In (temp_name b) (columns df).

(** The logging call made for a processed pair. *)
Definition is_swapped (r : record) : bool :=
  match r with
  | (INFO, Swapped _ _) => true
  | _ => false
  end.

(** The logging call made for a skipped pair. *)
Definition is_not_found (r : record) : bool :=
  match r with
  | (ERROR, ColumnsNotFound _ _) => true
  | _ => false
  end.

(** A key that cannot be hashed. *)
Definition unhashable (key : yaml) : Prop :=
  match key with
  | YList _ | YDict _ => True
  | _ => False
  end.

(** The logging call [swap_data] makes for a pair it skips. *)
Definition not_found_record (p : string * string) : record :=
  (ERROR, ColumnsNotFound (YStr (fst p)) (YStr (snd p))).

(** A validated configuration whose first pair starts with a list. *)
Definition list_name_config : yaml :=
  config_of [YList [YList [YStr "a"]; YStr "b"]; pair_of "a" "b"].

(** A run on the table [a], [b] that finds every file. *)
Definition run_on (config : yaml) : environment cell :=
  Environment (Ok config) ".csv"%string (Ok table_ab) (Raise OtherError) (Ok tt).

(** A run with the same configuration, a data file of another kind that
    is not there and a destination that cannot be written. *)
Definition run_without_data (config : yaml) : environment cell :=
  Environment (Ok config) ".txt"%string
    (Raise FileNotFoundError) (Raise FileNotFoundError) (Raise OtherError).

(** The table [people] after the pair [(age, city)] with the rows taken
    from last to first. *)
Definition people_swapped : DataFrame cell :=
  Frame (RangeIndex 3) [("name"%string, [Text "ann"; Text "bob"; Text "cy"]);
           ("age"%string, [Text "lima"; Text "rome"; Text "oslo"]);
           ("city"%string, [Num 31; Num 45; Num 27])].

(** ** The shape of a configuration *)

(** The shape the specification asks of an element of [columns_to_swap]:
    a sequence of two column-name strings. *)
Definition is_name_pair (y : yaml) : Prop :=
  exists a b, y = YList [YStr a; YStr b].

(** The shape [validate_config] asks of it: a list of two items. *)
Definition is_two_list (y : yaml) : Prop :=
  exists x1 x2, y = YList [x1; x2].

(** A mapping with key [columns_to_swap] whose value is a list of
    elements of the given shape. *)
Definition config_shape (element : yaml -> Prop) (config : yaml) : Prop :=
  exists entries l,
    config = YDict entries /\
    dict_get "columns_to_swap" entries = Some (YList l) /\
    Forall element l.

(** The configuration as the specification words it. *)
Definition spec_valid_config : yaml -> Prop := config_shape is_name_pair.

(** The configuration as the code checks it. *)
Definition checked_config : yaml -> Prop := config_shape is_two_list.

(** ** Enumerating orders *)

(** All the ways to put [x] into [l]. *)
Fixpoint inserts (x : nat) (l : list nat) : list (list nat) :=
  match l with
  | [] => [[x]]
  | y :: rest => (x :: l) :: map (cons y) (inserts x rest)
  end.

(** All the orderings of [l]. *)
Fixpoint orders_of (l : list nat) : list (list nat) :=
  match l with
  | [] => [[]]
  | x :: rest => flat_map (inserts x) (orders_of rest)
  end.

Fixpoint same_order (p q : list nat) : bool :=
  match p, q with
  | [], [] => true
  | i :: p', j :: q' => Nat.eqb i j && same_order p' q'
  | _, _ => false
  end.

Fixpoint distinct (ps : list (list nat)) : bool :=
  match ps with
  | [] => true
  | p :: rest => negb (existsb (same_order p) rest) && distinct rest
  end.

(** One order more than [random.randint(0, 1000)] has values, for seven
    rows. *)
Definition some_orders : list (list nat) := firstn 1002 (orders_of (seq 0 7)).

(** The seeds [random.randint(0, 1000)] can return. *)
Definition seeds : list Z := map Z.of_nat (seq 0 1001).

(** ** Counting orders *)

Lemma in_seeds seed : (0 <= seed <= 1000)%Z -> In seed seeds.
Proof.
  intros H. unfold seeds. rewrite <- (Z2Nat.id seed) by lia.
  apply in_map, in_seq. lia.
Qed.

Lemma inserts_permutation x l p : In p (inserts x l) -> Permutation p (x :: l).
Proof.
  revert p. induction l as [| y rest IH]; intros p; simpl.
  - intros [<- | []]. apply Permutation_refl.
  - intros [<- | H]; [apply Permutation_refl |].
    apply in_map_iff in H. destruct H as (q & <- & Hq).
    apply IH in Hq.
    apply Permutation_trans with (y :: x :: rest);
      [now apply perm_skip | apply perm_swap].
Qed.

Lemma orders_of_permutation l p : In p (orders_of l) -> Permutation p l.
Proof.
  revert p. induction l as [| x rest IH]; intros p; simpl.
  - intros [<- | []]. apply Permutation_refl.
  - intros H. apply in_flat_map in H. destruct H as (q & Hq & Hp).
    apply inserts_permutation in Hp. apply IH in Hq.
    apply Permutation_trans with (x :: q); [assumption | now apply perm_skip].
Qed.

Lemma same_order_refl p : same_order p p = true.
Proof.
  induction p as [| i p IH]; simpl; [reflexivity |].
  now rewrite Nat.eqb_refl.
Qed.

Lemma distinct_NoDup ps : distinct ps = true -> NoDup ps.
Proof.
  induction ps as [| p rest IH]; simpl; [constructor |].
  intros H. apply andb_true_iff in H. destruct H as [H1 H2].
  constructor; [| now apply IH].
  intros Hin. apply negb_true_iff in H1.
  assert (existsb (same_order p) rest = true) as E; [| congruence].
  apply existsb_exists. exists p. split; [assumption | apply same_order_refl].
Qed.

Lemma some_orders_NoDup : NoDup some_orders.
Proof. apply distinct_NoDup. vm_compute. reflexivity. Qed.

Lemma some_orders_length : List.length some_orders = 1002%nat.
Proof. vm_compute. reflexivity. Qed.

Lemma some_orders_permutations p :
  In p some_orders -> Permutation p (seq 0 7).
Proof.
  intros H. apply orders_of_permutation.
  unfold some_orders in H.
  rewrite <- (firstn_skipn 1002 (orders_of (seq 0 7))).
  apply in_or_app. now left.
Qed.

Lemma NoDup_map_injective {A B : Type} (f : A -> B) (xs : list A) :
  (forall x y, f x = f y -> x = y) -> NoDup xs -> NoDup (map f xs).
Proof.
  intros Hf H. induction H as [| x xs Hx _ IH]; simpl; constructor;
    [| assumption].
  intros Hin. apply in_map_iff in Hin. destruct Hin as (y & E & Hy).
  apply Hf in E. now subst y.
Qed.

(** From seven rows on, there are more orderings than seeds: some
    ordering of the rows is the order of no seed. *)
Lemma orders_exceed_seeds (sample_order : Z -> nat -> list nat) (n : nat) :
  7 <= n -> ~ all_orders_reachable sample_order n.
Proof.
  intros Hn H.
  assert (incl (map (fun p => p ++ seq 7 (n - 7)) some_orders)
               (map (fun seed => sample_order seed n) seeds)) as Hincl.
  { intros q Hq. apply in_map_iff in Hq. destruct Hq as (p & <- & Hp).
    apply some_orders_permutations in Hp.
    assert (Permutation (p ++ seq 7 (n - 7)) (seq 0 n)) as HP.
    { replace (seq 0 n) with (seq 0 7 ++ seq 7 (n - 7)).
      - now apply Permutation_app_tail.
      - rewrite <- seq_app. f_equal. lia. }
    destruct (H _ HP) as (seed & Hr & <-).
    apply (in_map (fun seed => sample_order seed n)), in_seeds, Hr. }
  apply NoDup_incl_length in Hincl.
  - rewrite !length_map, some_orders_length in Hincl.
    unfold seeds in Hincl. rewrite length_map, length_seq in Hincl. lia.
  - apply NoDup_map_injective; [| apply some_orders_NoDup].
    intros p q E. exact (app_inv_tail _ _ _ E).
Qed.

(** ** Lists of columns *)

Unset Implicit Arguments.

Section Properties.

Variable V : Type.
Context {missing : Missing V}.
Variable randint : nat -> Z -> Z -> Z.
Variable sample_order : Z -> nat -> list nat.

Implicit Types (df : DataFrame V) (l : list (string * column V)) (c : string).

Lemma existsb_label c (names : list string) :
  existsb (String.eqb c) names = true <-> In c names.
Proof.
  rewrite existsb_exists. split.
  - intros [x [Hin Heq]]. apply String.eqb_eq in Heq. now subst.
  - intros Hin. exists c. split; [assumption | apply String.eqb_refl].
Qed.

Lemma lookup_assign_same c v l : lookup c (assign c v l) = Some v.
Proof.
  induction l as [| [c' v'] rest IH]; simpl.
  - now rewrite String.eqb_refl.
  - destruct (String.eqb c c') eqn:E; simpl; rewrite E; [reflexivity | exact IH].
Qed.

Lemma lookup_assign_other c c' v l :
  c <> c' -> lookup c' (assign c v l) = lookup c' l.
Proof.
  intros Hne. induction l as [| [k v'] rest IH]; simpl.
  - apply String.eqb_neq in Hne. rewrite String.eqb_sym in Hne. now rewrite Hne.
  - destruct (String.eqb c k) eqn:E; simpl.
    + apply String.eqb_eq in E. subst k.
      assert (String.eqb c' c = false) as ->
          by (apply String.eqb_neq; congruence).
      reflexivity.
    + now rewrite IH.
Qed.

Lemma labels_assign_in c v l :
  In c (map fst l) -> map fst (assign c v l) = map fst l.
Proof.
  induction l as [| [k v'] rest IH]; simpl; [tauto |].
  intros Hin. destruct (String.eqb c k) eqn:E; simpl; [reflexivity |].
  f_equal. apply IH. destruct Hin as [-> | Hin]; [| assumption].
  now rewrite String.eqb_refl in E.
Qed.

Lemma labels_assign_notin c v l :
  ~ In c (map fst l) -> map fst (assign c v l) = map fst l ++ [c].
Proof.
  induction l as [| [k v'] rest IH]; simpl; [reflexivity |].
  intros Hnin. destruct (String.eqb c k) eqn:E.
  - apply String.eqb_eq in E. subst k. tauto.
  - simpl. f_equal. apply IH. tauto.
Qed.

Lemma in_labels_assign c c' v l :
  In c' (map fst l) -> In c' (map fst (assign c v l)).
Proof.
  intros Hin. destruct (in_dec string_dec c (map fst l)) as [H | H].
  - now rewrite labels_assign_in.
  - rewrite labels_assign_notin by assumption. apply in_or_app. now left.
Qed.

Lemma in_labels_assign_same c v l : In c (map fst (assign c v l)).
Proof.
  destruct (in_dec string_dec c (map fst l)) as [H | H].
  - now rewrite labels_assign_in.
  - rewrite labels_assign_notin by assumption. apply in_or_app. right. now left.
Qed.

Lemma lookup_in_labels c l : In c (map fst l) <-> exists v, lookup c l = Some v.
Proof.
  induction l as [| [k v'] rest IH]; simpl.
  - split; [tauto | intros [v H]; discriminate].
  - destruct (String.eqb c k) eqn:E.
    + apply String.eqb_eq in E. subst k. split; [now exists v' | now left].
    + apply String.eqb_neq in E. rewrite IH. split.
      * intros [H | H]; [congruence | assumption].
      * intros H. now right.
Qed.

Lemma lookup_in c v l : lookup c l = Some v -> In (c, v) l.
Proof.
  induction l as [| [k v'] rest IH]; simpl; [discriminate |].
  destruct (String.eqb c k) eqn:E.
  - apply String.eqb_eq in E. subst k. intros [= ->]. now left.
  - intros H. right. now apply IH.
Qed.

Lemma lookup_remove_other c c' l :
  c <> c' -> lookup c' (remove_label c l) = lookup c' l.
Proof.
  intros Hne. induction l as [| [k v'] rest IH]; simpl; [reflexivity |].
  destruct (String.eqb c k) eqn:E; simpl.
  - apply String.eqb_eq in E. subst k.
    assert (String.eqb c' c = false) as ->
        by (apply String.eqb_neq; congruence).
    exact IH.
  - now rewrite IH.
Qed.

Lemma labels_remove c l :
  map fst (remove_label c l)
  = filter (fun k => negb (String.eqb c k)) (map fst l).
Proof.
  induction l as [| [k v'] rest IH]; simpl; [reflexivity |].
  destruct (String.eqb c k); simpl; now rewrite IH.
Qed.

Lemma not_in_labels_remove c l : ~ In c (map fst (remove_label c l)).
Proof.
  rewrite labels_remove, filter_In. intros [_ H].
  now rewrite String.eqb_refl in H.
Qed.

Lemma in_labels_remove c c' l :
  c <> c' -> In c' (map fst l) -> In c' (map fst (remove_label c l)).
Proof.
  intros Hne Hin. rewrite labels_remove, filter_In. split; [assumption |].
  apply String.eqb_neq in Hne. now rewrite Hne.
Qed.

Lemma in_assign c v l k u :
  In (k, u) (assign c v l) -> In (k, u) l \/ (k = c /\ u = v).
Proof.
  induction l as [| [k' v'] rest IH]; simpl.
  - intros [[= <- <-] | []]. now right.
  - destruct (String.eqb c k') eqn:E; simpl.
    + apply String.eqb_eq in E. subst k'.
      intros [[= <- <-] | H]; [now right | left; now right].
    + intros [H | H]; [left; now left |].
      destruct (IH H) as [H' | H']; [left; now right | now right].
Qed.

Lemma temp_name_neq c : temp_name c <> c.
Proof.
  intros H. apply (f_equal String.length) in H. simpl in H. lia.
Qed.


(** ** take *)

Lemma take_spec (s : column V) indices vs :
  take s indices = Ok vs <-> map (nth_error s) indices = map Some vs.
Proof.
  revert vs. induction indices as [| i rest IH]; intros vs; simpl.
  - split.
    + now intros [= <-].
    + destruct vs; [reflexivity | discriminate].
  - destruct (nth_error s i) as [v |] eqn:E.
    + destruct (take s rest) as [vs' | e] eqn:T; simpl.
      * split.
        -- intros [= <-]. simpl. f_equal. now apply IH.
        -- destruct vs as [| v0 vs0]; [discriminate |]. simpl.
           intros [= -> H]. apply IH in H. injection H as ->. reflexivity.
      * split; [discriminate |].
        destruct vs as [| v0 vs0]; [discriminate |]. simpl.
        intros [= _ H]. apply IH in H. discriminate.
    + split; [discriminate |]. destruct vs; discriminate.
Qed.

Lemma take_in_bounds (s : column V) indices :
  (forall i, In i indices -> i < List.length s) ->
  exists vs, take s indices = Ok vs.
Proof.
  induction indices as [| i rest IH]; intros Hb; simpl.
  - now exists [].
  - destruct (nth_error s i) as [v |] eqn:E.
    + destruct IH as [vs Hvs]; [intros j Hj; apply Hb; now right |].
      rewrite Hvs. simpl. now exists (v :: vs).
    + apply nth_error_None in E.
      specialize (Hb i (or_introl eq_refl)). lia.
Qed.

Lemma nth_error_all_rows (s : column V) :
  map (nth_error s) (seq 0 (List.length s)) = map Some s.
Proof.
  induction s as [| v s IH]; simpl; [reflexivity |].
  f_equal. rewrite <- seq_shift, map_map. simpl. exact IH.
Qed.

Lemma take_length (s : column V) indices vs :
  take s indices = Ok vs -> List.length vs = List.length indices.
Proof.
  intros H. apply take_spec in H.
  apply (f_equal (@List.length _)) in H. now rewrite !length_map in H.
Qed.

(** Taking the rows in an order that lists every position once succeeds
    and returns the same cells in another order. *)
Lemma take_permutation (s : column V) indices :
  Permutation indices (seq 0 (List.length s)) ->
  exists vs, take s indices = Ok vs /\ Permutation vs s.
Proof.
  intros HP.
  destruct (take_in_bounds s indices) as [vs Hvs].
  { intros i Hi. apply (Permutation_in _ HP) in Hi.
    apply in_seq in Hi. lia. }
  exists vs. split; [assumption |].
  apply take_spec in Hvs.
  apply (Permutation_map (nth_error s)) in HP.
  rewrite Hvs, nth_error_all_rows in HP.
  apply Permutation_sym, Permutation_map_inv in HP.
  destruct HP as [l3 [Heq HP]].
  assert (s = l3) as <-.
  { clear - Heq. revert l3 Heq. induction s as [| v s IH]; intros [| v' l3];
      simpl; try discriminate; [reflexivity |].
    intros [= -> H]. f_equal. now apply IH. }
  now apply Permutation_sym.
Qed.

(** ** Frames *)

Lemma getitem_in df c : In c (columns df) <-> exists v, getitem df c = Ok v.
Proof.
  unfold getitem, columns. rewrite lookup_in_labels. split.
  - intros [v ->]. now exists v.
  - intros [v H]. destruct (lookup c (cols df)) as [u |]; [now exists u | discriminate].
Qed.

Lemma getitem_setitem_same df c v : getitem (setitem df c v) c = Ok v.
Proof. unfold getitem, setitem. simpl. now rewrite lookup_assign_same. Qed.

Lemma getitem_setitem_other df c c' v :
  c <> c' -> getitem (setitem df c v) c' = getitem df c'.
Proof.
  intros H. unfold getitem, setitem. simpl. now rewrite lookup_assign_other.
Qed.

Lemma drop_present df c :
  In c (columns df) -> drop df c = Ok (Frame (index df) (remove_label c (cols df))).
Proof.
  intros H. unfold drop. apply existsb_label in H. now rewrite H.
Qed.

Lemma aligned_setitem df c v :
  aligned df -> List.length v = nrows df -> aligned (setitem df c v).
Proof.
  intros Ha Hv k u Hin. simpl in *.
  apply in_assign in Hin. destruct Hin as [Hin | [_ ->]]; [| assumption].
  exact (Ha _ _ Hin).
Qed.

Lemma aligned_remove df c :
  aligned df -> aligned (Frame (index df) (remove_label c (cols df))).
Proof.
  intros Ha k u Hin. simpl in *. apply filter_In in Hin. exact (Ha _ _ (proj1 Hin)).
Qed.

Lemma getitem_aligned df c v :
  aligned df -> getitem df c = Ok v -> List.length v = nrows df.
Proof.
  unfold getitem. intros Ha H.
  destruct (lookup c (cols df)) as [u |] eqn:E; [| discriminate].
  injection H as ->. exact (Ha _ _ (lookup_in _ _ _ E)).
Qed.

(** ** Alignment on the row labels *)

Lemma label_eqb_refl (l : label) : label_eqb l l = true.
Proof. destruct l; simpl; [apply Z.eqb_refl | apply String.eqb_refl]. Qed.

Lemma index_equals_refl (idx : list label) : index_equals idx idx = true.
Proof.
  induction idx as [| l rest IH]; simpl; [reflexivity |].
  now rewrite label_eqb_refl.
Qed.

(** On a table whose rows are numbered [0..N-1] a series of [N] values
    over [0..N-1] is stored as it is. *)
Lemma align_default df (values : column V) :
  default_index df -> List.length values = nrows df ->
  align (index df) values = values.
Proof.
  intros Hd Hl. unfold align. rewrite Hl, <- Hd.
  now rewrite index_equals_refl.
Qed.

Lemma length_reindex (values : column V) idx :
  List.length (reindex values idx) = List.length idx.
Proof. unfold reindex. apply length_map. Qed.

Lemma index_equals_length idx1 idx2 :
  index_equals idx1 idx2 = true -> List.length idx1 = List.length idx2.
Proof.
  revert idx2. induction idx1 as [| l1 rest1 IH]; intros [| l2 rest2]; simpl;
    try discriminate; [reflexivity |].
  intros H. apply andb_true_iff in H. f_equal. now apply IH.
Qed.

(** Whatever the row labels, a series of as many values as the table has
    rows is stored with that many values. *)
Lemma length_align idx (values : column V) :
  List.length values = List.length idx ->
  List.length (align idx values) = List.length idx.
Proof.
  intros H. unfold align.
  destruct (index_equals (RangeIndex (List.length values)) idx);
    [assumption | apply length_reindex].
Qed.

(** ** One processed pair *)

Hypothesis every_row : samples_every_row sample_order.

Lemma sample_all_shuffles (s : column V) seed :
  exists shuffled,
    sample_all sample_order s seed = Ok shuffled /\ Permutation shuffled s.
Proof. unfold sample_all. apply take_permutation, every_row. Qed.

Lemma swap_columns_eq seed df c1 c2 v2 shuffled x :
  getitem df c2 = Ok v2 ->
  sample_all sample_order v2 seed = Ok shuffled ->
  getitem (setitem df (temp_name c2) (align (index df) shuffled)) c1 = Ok x ->
  swap_columns sample_order seed df c1 c2
  = Ok (Frame (index df)
          (swapped_cols c1 c2 (align (index df) shuffled) x (cols df))).
Proof.
  intros H2 Hs H1. unfold swap_columns, with_temp.
  rewrite H2. simpl. rewrite Hs. simpl. rewrite H1. simpl.
  rewrite getitem_setitem_other by (intros E; symmetry in E; now apply temp_name_neq in E).
  rewrite getitem_setitem_same. simpl.
  rewrite drop_present; [reflexivity |].
  unfold columns. simpl.
  apply in_labels_assign, in_labels_assign, in_labels_assign_same.
Qed.

(** A pair whose two labels exist is processed without an exception. *)
Lemma swap_columns_total seed df c1 c2 :
  In c1 (columns df) -> In c2 (columns df) ->
  exists v2 shuffled x,
    getitem df c2 = Ok v2 /\
    sample_all sample_order v2 seed = Ok shuffled /\
    Permutation shuffled v2 /\
    getitem (setitem df (temp_name c2) (align (index df) shuffled)) c1
    = Ok x /\
    swap_columns sample_order seed df c1 c2
    = Ok (Frame (index df)
            (swapped_cols c1 c2 (align (index df) shuffled) x (cols df))).
Proof.
  intros H1 H2. apply getitem_in in H2. destruct H2 as [v2 H2].
  destruct (sample_all_shuffles v2 seed) as [shuffled [Hs HP]].
  assert (exists x,
             getitem (setitem df (temp_name c2) (align (index df) shuffled)) c1
             = Ok x)
    as [x Hx].
  { apply getitem_in. unfold columns. simpl. now apply in_labels_assign. }
  exists v2, shuffled, x. repeat split; try assumption.
  now apply swap_columns_eq with (v2 := v2).
Qed.

Lemma lookup_swapped_other c c1 c2 shuffled x l :
  c <> c1 -> c <> c2 -> c <> temp_name c2 ->
  lookup c (swapped_cols c1 c2 shuffled x l) = lookup c l.
Proof.
  intros N1 N2 Nt. unfold swapped_cols.
  rewrite lookup_remove_other by congruence.
  now rewrite !lookup_assign_other by congruence.
Qed.

Lemma lookup_swapped_col1 c1 c2 shuffled x l :
  c1 <> temp_name c2 ->
  lookup c1 (swapped_cols c1 c2 shuffled x l) = Some shuffled.
Proof.
  intros Nt. unfold swapped_cols.
  rewrite lookup_remove_other by congruence.
  apply lookup_assign_same.
Qed.

Lemma lookup_swapped_col2 c1 c2 shuffled x l :
  c1 <> c2 ->
  lookup c2 (swapped_cols c1 c2 shuffled x l) = Some x.
Proof.
  intros N. unfold swapped_cols.
  rewrite lookup_remove_other by apply temp_name_neq.
  rewrite lookup_assign_other by assumption.
  apply lookup_assign_same.
Qed.

Lemma temp_not_in_swapped c1 c2 shuffled x l :
  ~ In (temp_name c2) (map fst (swapped_cols c1 c2 shuffled x l)).
Proof. apply not_in_labels_remove. Qed.

Lemma in_labels_swapped c c1 c2 shuffled x l :
  c <> temp_name c2 -> In c (map fst l) ->
  In c (map fst (swapped_cols c1 c2 shuffled x l)).
Proof.
  intros Nt Hin. unfold swapped_cols.
  apply in_labels_remove; [congruence |].
  now apply in_labels_assign, in_labels_assign, in_labels_assign.
Qed.

(** ** One iteration *)

Lemma find_label_present df c :
  In c (columns df) -> find_label df (YStr c) = Ok (Some c).
Proof. intros H. simpl. apply existsb_label in H. now rewrite H. Qed.

Lemma find_label_absent df c :
  ~ In c (columns df) -> find_label df (YStr c) = Ok None.
Proof.
  intros H. simpl. destruct (existsb (String.eqb c) (columns df)) eqn:E;
    [| reflexivity].
  apply existsb_label in E. contradiction.
Qed.

Lemma swap_iteration_processed df c1 c2 w :
  In c1 (columns df) -> In c2 (columns df) ->
  swap_iteration randint sample_order df (pair_of c1 c2) w
  = match swap_columns sample_order (randint (draws w) 0 1000) df c1 c2 with
    | Ok df' => (Ok df', logging INFO (Swapped c1 c2) (tick w))
    | Raise e => (Raise e, tick w)
    end.
Proof.
  intros H1 H2. unfold swap_iteration, pair_of. cbn [unpack2].
  rewrite (find_label_present df c1 H1), (find_label_present df c2 H2).
  reflexivity.
Qed.

Lemma swap_iteration_skipped df c1 c2 w :
  ~ In c1 (columns df) \/ ~ In c2 (columns df) ->
  swap_iteration randint sample_order df (pair_of c1 c2) w
  = (Ok df, logging ERROR (ColumnsNotFound (YStr c1) (YStr c2)) w).
Proof.
  intros H. unfold swap_iteration, pair_of. cbn [unpack2].
  destruct (in_dec string_dec c1 (columns df)) as [H1 | H1].
  - rewrite (find_label_present df c1 H1).
    destruct H as [H | H]; [contradiction |].
    now rewrite (find_label_absent df c2 H).
  - now rewrite (find_label_absent df c1 H1).
Qed.

Lemma find_label_found df key c :
  find_label df key = Ok (Some c) -> key = YStr c /\ In c (columns df).
Proof.
  destruct key; simpl; try discriminate.
  destruct (existsb (String.eqb s) (columns df)) eqn:E; [| discriminate].
  intros [= <-]. split; [reflexivity | now apply existsb_label].
Qed.

(** The two ways an iteration ends without an exception. *)
Lemma swap_iteration_cases df swap_pair w df' w' :
  swap_iteration randint sample_order df swap_pair w = (Ok df', w') ->
  (df' = df /\ draws w' = draws w /\
   exists col1 col2, w' = logging ERROR (ColumnsNotFound col1 col2) w)
  \/
  (exists c1 c2,
      unpack2 swap_pair = Ok (YStr c1, YStr c2) /\
      In c1 (columns df) /\ In c2 (columns df) /\
      swap_columns sample_order (randint (draws w) 0 1000) df c1 c2 = Ok df' /\
      w' = logging INFO (Swapped c1 c2) (tick w)).
Proof.
  unfold swap_iteration.
  destruct (unpack2 swap_pair) as [[col1 col2] | e]; [| discriminate].
  destruct (find_label df col1) as [[c1 |] | e] eqn:F1; [| | discriminate].
  - destruct (find_label df col2) as [[c2 |] | e] eqn:F2; [| | discriminate].
    + destruct (swap_columns sample_order _ df c1 c2) as [d |] eqn:S;
        [| discriminate].
      intros [= <- <-]. right. exists c1, c2.
      apply find_label_found in F1, F2.
      destruct F1 as [-> I1], F2 as [-> I2]. repeat split; assumption.
    + intros [= <- <-]. left. repeat split. now exists col1, col2.
  - intros [= <- <-]. left. repeat split. now exists col1, col2.
Qed.

Lemma swap_columns_shape seed df c1 c2 df' :
  In c1 (columns df) -> In c2 (columns df) ->
  swap_columns sample_order seed df c1 c2 = Ok df' ->
  nrows df' = nrows df /\ (aligned df -> aligned df').
Proof.
  intros I1 I2 H.
  destruct (swap_columns_total seed df c1 c2 I1 I2)
    as (v2 & shuffled & x & G2 & Hs & HP & Gx & Heq).
  rewrite Heq in H. injection H as <-. split; [reflexivity |].
  intros Ha.
  assert (List.length (align (index df) shuffled) = nrows df) as Ls.
  { apply length_align. rewrite (Permutation_length HP).
    exact (getitem_aligned _ _ _ Ha G2). }
  pose proof (aligned_setitem _ (temp_name c2) _ Ha Ls) as A1.
  pose proof (getitem_aligned _ _ _ A1 Gx) as Lx.
  change (nrows (setitem df (temp_name c2) (align (index df) shuffled)))
    with (nrows df) in Lx.
  pose proof (aligned_setitem _ c2 _ A1 Lx) as A2.
  pose proof (aligned_setitem _ c1 _ A2 Ls) as A3.
  exact (aligned_remove _ (temp_name c2) A3).
Qed.

(** The row labels are never touched. *)
Lemma swap_columns_index seed df c1 c2 df' :
  In c1 (columns df) -> In c2 (columns df) ->
  swap_columns sample_order seed df c1 c2 = Ok df' ->
  index df' = index df.
Proof.
  intros I1 I2 H.
  destruct (swap_columns_total seed df c1 c2 I1 I2)
    as (v2 & shuffled & x & _ & _ & _ & _ & Heq).
  rewrite Heq in H. now injection H as <-.
Qed.

Lemma swap_iteration_index df swap_pair w df' w' :
  swap_iteration randint sample_order df swap_pair w = (Ok df', w') ->
  index df' = index df.
Proof.
  intros H. apply swap_iteration_cases in H.
  destruct H as [[-> _] | (c1 & c2 & _ & I1 & I2 & H & _)]; [reflexivity |].
  exact (swap_columns_index _ _ _ _ _ I1 I2 H).
Qed.

Lemma swap_iteration_shape df swap_pair w df' w' :
  swap_iteration randint sample_order df swap_pair w = (Ok df', w') ->
  nrows df' = nrows df /\ (aligned df -> aligned df').
Proof.
  intros H. apply swap_iteration_cases in H.
  destruct H as [[-> _] | (c1 & c2 & _ & I1 & I2 & H & _)].
  - split; [reflexivity | exact (fun a => a)].
  - exact (swap_columns_shape _ _ _ _ _ I1 I2 H).
Qed.

(** An element made of two strings never raises. *)
Lemma swap_iteration_total df a b w :
  exists df' w',
    swap_iteration randint sample_order df (pair_of a b) w = (Ok df', w').
Proof.
  destruct (in_dec string_dec a (columns df)) as [Ia | Ia].
  - destruct (in_dec string_dec b (columns df)) as [Ib | Ib].
    + rewrite (swap_iteration_processed df a b w Ia Ib).
      destruct (swap_columns_total (randint (draws w) 0 1000) df a b Ia Ib)
        as (v2 & shuffled & x & _ & _ & _ & _ & ->).
      eauto.
    + rewrite swap_iteration_skipped by now right. eauto.
  - rewrite swap_iteration_skipped by now left. eauto.
Qed.

Lemma swap_data_total df names w :
  exists df' w',
    swap_data randint sample_order df (pairs_of names) w = (Ok df', w').
Proof.
  revert df w. induction names as [| [a b] rest IH]; intros df w; simpl.
  - eauto.
  - destruct (swap_iteration_total df a b w) as (d & w1 & ->). apply IH.
Qed.

Lemma swap_data_shape df columns_to_swap w df' w' :
  swap_data randint sample_order df columns_to_swap w = (Ok df', w') ->
  nrows df' = nrows df /\ (aligned df -> aligned df').
Proof.
  revert df w. induction columns_to_swap as [| p rest IH]; intros df w; simpl.
  - intros [= <- <-]. split; [reflexivity | exact (fun a => a)].
  - destruct (swap_iteration randint sample_order df p w) as [[d | e] w1] eqn:E;
      [| discriminate].
    intros H. apply IH in H. apply swap_iteration_shape in E.
    destruct H as [H1 H2], E as [E1 E2]. split; [congruence | auto].
Qed.

(** ** The run over the pairs *)

Lemma swap_data_app df ps qs w :
  swap_data randint sample_order df (ps ++ qs) w
  = match swap_data randint sample_order df ps w with
    | (Ok df', w') => swap_data randint sample_order df' qs w'
    | (Raise e, w') => (Raise e, w')
    end.
Proof.
  revert df w. induction ps as [| p rest IH]; intros df w; simpl.
  - reflexivity.
  - destruct (swap_iteration randint sample_order df p w) as [[d | e] w1];
      [apply IH | reflexivity].
Qed.

Lemma swap_data_single df a b w df' :
  In a (columns df) -> In b (columns df) ->
  swap_columns sample_order (randint (draws w) 0 1000) df a b = Ok df' ->
  swap_data randint sample_order df [pair_of a b] w
  = (Ok df', logging INFO (Swapped a b) (tick w)).
Proof.
  intros Ia Ib H. simpl.
  now rewrite (swap_iteration_processed df a b w Ia Ib), H.
Qed.

Lemma getitem_present df c v : getitem df c = Ok v -> In c (columns df).
Proof. intros H. apply getitem_in. now exists v. Qed.

(** What a processed pair of two different columns leaves in them. *)
Lemma swap_columns_distinct seed df a b va vb :
  a <> b -> a <> temp_name b ->
  getitem df a = Ok va -> getitem df b = Ok vb ->
  exists df' shuffled,
    swap_columns sample_order seed df a b = Ok df' /\
    sample_all sample_order vb seed = Ok shuffled /\
    Permutation shuffled vb /\
    getitem df' a = Ok (align (index df) shuffled) /\
    getitem df' b = Ok va /\
    index df' = index df.
Proof.
  intros Nab Nt Ga Gb.
  destruct (swap_columns_total seed df a b
              (getitem_present _ _ _ Ga) (getitem_present _ _ _ Gb))
    as (v2 & shuffled & x & G2 & Hs & HP & Gx & Heq).
  rewrite Gb in G2. injection G2 as <-.
  rewrite getitem_setitem_other, Ga in Gx by congruence. injection Gx as <-.
  exists (Frame (index df)
            (swapped_cols a b (align (index df) shuffled) va (cols df))),
    shuffled.
  repeat split; try assumption; unfold getitem; simpl.
  - now rewrite lookup_swapped_col1.
  - now rewrite lookup_swapped_col2.
Qed.

(** On a table whose rows are numbered [0..N-1] the shuffled values
    reach the scratch column as they are. *)
Lemma align_shuffled df c v shuffled :
  aligned df -> default_index df ->
  getitem df c = Ok v -> Permutation shuffled v ->
  align (index df) shuffled = shuffled.
Proof.
  intros Ha Hd G HP. apply align_default; [assumption |].
  rewrite (Permutation_length HP). exact (getitem_aligned _ _ _ Ha G).
Qed.

(** A column that no pair names, and that is the scratch column of no
    pair, is the same after the run. *)
Lemma untouched_column df names w df' w' c :
  swap_data randint sample_order df (pairs_of names) w = (Ok df', w') ->
  (forall a b, In (a, b) names -> c <> a /\ c <> b /\ c <> temp_name b) ->
  getitem df' c = getitem df c.
Proof.
  revert df w. induction names as [| [a b] rest IH]; intros df w; simpl.
  - now intros [= <- <-].
  - intros H Hc.
    destruct (swap_iteration randint sample_order df (pair_of a b) w)
      as [[d | e] w1] eqn:E; [| discriminate].
    rewrite (IH _ _ H) by (intros; apply Hc; now right).
    destruct (Hc a b (or_introl eq_refl)) as (Na & Nb & Nt).
    apply swap_iteration_cases in E.
    destruct E as [[-> _] | (c1 & c2 & U & I1 & I2 & S & _)]; [reflexivity |].
    injection U as <- <-.
    destruct (swap_columns_total (randint (draws w) 0 1000) df a b I1 I2)
      as (v2 & shuffled & x & _ & _ & _ & _ & Heq).
    rewrite Heq in S. injection S as <-.
    unfold getitem. simpl. now rewrite lookup_swapped_other.
Qed.

(** ** The claims on [swap_data] *)

(** C2 (amended).  On a table whose rows are numbered [0..N-1] and
    whose columns have the length of the index, a processed pair of two
    different columns preserves the values of the pair jointly, not column
    by column: the output [colA] is a permutation of the input [colB], the
    output [colB] is the input [colA], and the two output columns together
    are a permutation of the two input columns together. *)
Theorem swap_pair_joint_multiset df a b va vb w :
  aligned df -> default_index df ->
  a <> b -> a <> temp_name b ->
  getitem df a = Ok va -> getitem df b = Ok vb ->
  exists df' w' va' vb',
    swap_data randint sample_order df [pair_of a b] w = (Ok df', w') /\
    getitem df' a = Ok va' /\ getitem df' b = Ok vb' /\
    Permutation va' vb /\ vb' = va /\
    Permutation (va' ++ vb') (va ++ vb).
Proof.
  intros Hal Hd Nab Nt Ga Gb.
  destruct (swap_columns_distinct (randint (draws w) 0 1000) df a b va vb
              Nab Nt Ga Gb) as (df' & shuffled & S & Hs & HP & Ha & Hb & _).
  rewrite (align_shuffled df b vb shuffled Hal Hd Gb HP) in Ha.
  exists df', (logging INFO (Swapped a b) (tick w)), shuffled, va.
  repeat split; try assumption.
  - apply swap_data_single; eauto using getitem_present.
  - rewrite (Permutation_app_comm va vb). now apply Permutation_app_tail.
Qed.

(** C5 (amended).  When a name of a pair is not a label of the table, the
    iteration leaves the whole table as it is, draws no seed, makes one
    logging call at level ERROR whose message carries both names of the
    pair, and the run goes on with the remaining pairs. *)
Theorem missing_column_skipped df a b rest w :
  ~ In a (columns df) \/ ~ In b (columns df) ->
  swap_iteration randint sample_order df (pair_of a b) w
  = (Ok df, World (draws w)
              (log w ++ [(ERROR, ColumnsNotFound (YStr a) (YStr b))])) /\
  swap_data randint sample_order df (pair_of a b :: rest) w
  = swap_data randint sample_order df rest
      (logging ERROR (ColumnsNotFound (YStr a) (YStr b)) w).
Proof.
  intros H. split.
  - now rewrite swap_iteration_skipped.
  - cbn [swap_data]. now rewrite swap_iteration_skipped.
Qed.

(** C7.  For a table whose columns are aligned with its index,
    [swap_data] never changes the row count: whatever it is given, the
    table it returns has the row count of the input and every column of
    that length; and for a configuration of pairs of names it does return
    a table. *)
Theorem row_count_invariant df names w :
  aligned df ->
  (forall columns_to_swap df' w',
      swap_data randint sample_order df columns_to_swap w = (Ok df', w') ->
      nrows df' = nrows df /\ aligned df') /\
  exists df' w',
    swap_data randint sample_order df (pairs_of names) w = (Ok df', w') /\
    nrows df' = nrows df /\
    aligned df' /\
    (forall c v, getitem df' c = Ok v -> List.length v = nrows df).
Proof.
  intros Ha. split.
  - intros l df' w' H. destruct (swap_data_shape _ _ _ _ _ H) as [Hn Hal].
    split; [assumption | now apply Hal].
  - destruct (swap_data_total df names w) as (df' & w' & H).
    exists df', w'. destruct (swap_data_shape _ _ _ _ _ H) as [Hn Hal].
    repeat split; try assumption; [now apply Hal |].
    intros c v G. rewrite <- Hn. exact (getitem_aligned _ _ _ (Hal Ha) G).
Qed.

Lemma getitem_absent df c : ~ In c (columns df) -> getitem df c = Raise KeyError.
Proof.
  intros H. unfold getitem.
  destruct (lookup c (cols df)) as [v |] eqn:E; [| reflexivity].
  exfalso. apply H. apply lookup_in_labels. now exists v.
Qed.

(** The labels left by the four statements: those of the table once the
    scratch column is set, without the scratch label. *)
Lemma labels_swapped c1 c2 (shuffled x : column V) l :
  In c1 (map fst l) -> In c2 (map fst l) ->
  map fst (swapped_cols c1 c2 shuffled x l)
  = filter (fun k => negb (String.eqb (temp_name c2) k))
      (map fst (assign (temp_name c2) shuffled l)).
Proof.
  intros I1 I2. unfold swapped_cols. rewrite labels_remove.
  now rewrite !labels_assign_in
    by (try apply in_labels_assign; try apply in_labels_assign; assumption).
Qed.

(** C10.  When the table has a column labelled ["temp_" ++ colB] and the
    pair [(colA, colB)] of two other columns is processed: line 71
    replaces the values of that column, where it stands, by the shuffled
    values of [colB] as stored on the row labels; the table [swap_data]
    returns has the labels of the input without that one, in their order;
    [colA] holds the values that were put in the scratch column, [colB]
    the original values of [colA], and the other columns are as before.
    The pair does not name the column that is lost. *)
Theorem scratch_column_dropped df a b va vb w :
  getitem df a = Ok va -> getitem df b = Ok vb ->
  In (temp_name b) (columns df) -> a <> temp_name b -> a <> b ->
  exists shuffled stored df',
    sample_all sample_order vb (randint (draws w) 0 1000) = Ok shuffled /\
    Permutation shuffled vb /\
    stored = align (index df) shuffled /\
    with_temp sample_order (randint (draws w) 0 1000) df b
    = Ok (setitem df (temp_name b) stored) /\
    columns (setitem df (temp_name b) stored) = columns df /\
    getitem (setitem df (temp_name b) stored) (temp_name b) = Ok stored /\
    swap_data randint sample_order df [pair_of a b] w
    = (Ok df', logging INFO (Swapped a b) (tick w)) /\
    columns df'
    = filter (fun k => negb (String.eqb (temp_name b) k)) (columns df) /\
    getitem df' (temp_name b) = Raise KeyError /\
    getitem df' a = Ok stored /\
    getitem df' b = Ok va /\
    (forall c, c <> a -> c <> b -> c <> temp_name b ->
               getitem df' c = getitem df c).
Proof.
  intros Ga Gb It Nt Nab.
  pose proof (getitem_present _ _ _ Ga) as Ia.
  pose proof (getitem_present _ _ _ Gb) as Ib.
  destruct (swap_columns_total (randint (draws w) 0 1000) df a b Ia Ib)
    as (v2 & shuffled & x & G2 & Hs & HP & Gx & Heq).
  rewrite Gb in G2. injection G2 as <-.
  rewrite getitem_setitem_other, Ga in Gx by congruence. injection Gx as <-.
  exists shuffled, (align (index df) shuffled),
    (Frame (index df)
       (swapped_cols a b (align (index df) shuffled) va (cols df))).
  assert (columns (setitem df (temp_name b) (align (index df) shuffled))
          = columns df) as Ec
      by (unfold columns; simpl; now apply labels_assign_in).
  repeat split; try assumption.
  - unfold with_temp. rewrite Gb. simpl. now rewrite Hs.
  - apply getitem_setitem_same.
  - now apply swap_data_single.
  - unfold columns in *. simpl in *. rewrite labels_swapped by assumption.
    now rewrite Ec.
  - apply getitem_absent. unfold columns. simpl. apply temp_not_in_swapped.
  - unfold getitem. simpl. now rewrite lookup_swapped_col1.
  - unfold getitem. simpl. now rewrite lookup_swapped_col2.
  - intros c N1 N2 N3. unfold getitem. simpl.
    now rewrite lookup_swapped_other.
Qed.

(** ** Seeds *)

Hypothesis in_range : randint_in_range randint.


End Properties.

(** ** validate_config and main *)

Section Program.

Variable V : Type.
Context {missing : Missing V}.
Variable randint : nat -> Z -> Z -> Z.
Variable sample_order : Z -> nat -> list nat.

Lemma two_items (items : list yaml) :
  Nat.eqb (List.length items) 2 = true <-> is_two_list (YList items).
Proof.
  split.
  - destruct items as [| x1 [| x2 [| x3 rest]]]; simpl; try discriminate.
    intros _. now exists x1, x2.
  - intros (x1 & x2 & [= ->]). reflexivity.
Qed.

Lemma validate_pairs_true l w :
  fst (validate_pairs l w) = true <-> Forall is_two_list l.
Proof.
  induction l as [| y rest IH]; simpl.
  - split; [constructor | reflexivity].
  - destruct y as [| b | z | s | items | entries];
      try (split; [discriminate | intros H; inversion H as [| ? ? (x1 & x2 & E) _];
                                  discriminate]).
    destruct (Nat.eqb (List.length items) 2) eqn:E.
    + rewrite IH. split.
      * intros H. constructor; [now apply two_items | assumption].
      * intros H. now inversion H.
    + split; [discriminate |]. intros H. inversion H as [| ? ? H2 _].
      apply two_items in H2. congruence.
Qed.

Lemma validate_pairs_log l w :
  snd (validate_pairs l w)
  = if fst (validate_pairs l w) then w else logging ERROR ConfigBadPair w.
Proof.
  induction l as [| y rest IH]; simpl; [reflexivity |].
  destruct y; try reflexivity.
  destruct (Nat.eqb (List.length items) 2); [exact IH | reflexivity].
Qed.

Lemma validate_config_checked config w :
  fst (validate_config config w) = true <-> checked_config config.
Proof.
  unfold checked_config, config_shape. split.
  - destruct config as [| b | z | s | items | entries]; simpl; try discriminate.
    destruct (dict_get "columns_to_swap" entries) as [[| b | z | s | l | d] |] eqn:G;
      simpl; try discriminate.
    intros H. exists entries, l. rewrite validate_pairs_true in H. auto.
  - intros (entries & l & -> & G & H). simpl. rewrite G.
    now apply validate_pairs_true.
Qed.

(** A refusal comes with one logging call at level ERROR. *)
Lemma validate_config_refusal config w :
  fst (validate_config config w) = false ->
  exists m, snd (validate_config config w) = logging ERROR m w.
Proof.
  destruct config as [| b | z | s | items | entries]; simpl; eauto.
  destruct (dict_get "columns_to_swap" entries) as [[| b | z | s | l | d] |];
    simpl; eauto.
  intros H. rewrite validate_pairs_log, H. eauto.
Qed.

Lemma name_pair_two_list y : is_name_pair y -> is_two_list y.
Proof. intros (a & b & ->). now exists (YStr a), (YStr b). Qed.

Lemma handle_logs_error e w : exists m, In (ERROR, m) (log (handle e w)).
Proof.
  destruct e; simpl; eexists; apply in_or_app; right; left; reflexivity.
Qed.

Lemma logged_last lv m w : In (lv, m) (log (logging lv m w)).
Proof. simpl. apply in_or_app. right. now left. Qed.

Lemma logged_before lv m lv' m' w :
  In (lv, m) (log w) -> In (lv, m) (log (logging lv' m' w)).
Proof. intros H. simpl. apply in_or_app. now left. Qed.

Lemma main_invalid_config (env : environment V) config w :
  load_config env = Ok config ->
  fst (validate_config config (logging INFO Starting w)) = false ->
  fst (main randint sample_order env w) = None /\
  In (ERROR, InvalidConfig) (log (snd (main randint sample_order env w))).
Proof.
  intros L Hv. unfold main, main_try. rewrite L.
  destruct (validate_config config (logging INFO Starting w)) as [valid w1].
  simpl in Hv. subst valid. simpl. split; [reflexivity | apply logged_last].
Qed.

(** C9 (amended).  [validate_config] accepts a configuration exactly when
    it is a mapping with key [columns_to_swap] whose value is a list of
    lists of two items, whatever the items are; a configuration of the
    shape of the specification is accepted; a refusal makes one logging
    call at level ERROR, and [main] then logs that the configuration is
    invalid and writes no output. *)
Theorem validate_config_shape config w :
  (fst (validate_config config w) = true <-> checked_config config) /\
  (spec_valid_config config -> fst (validate_config config w) = true) /\
  (~ checked_config config ->
   (exists m, snd (validate_config config w) = logging ERROR m w) /\
   forall (env : environment V) w0,
     load_config env = Ok config ->
     fst (main randint sample_order env w0) = None /\
     In (ERROR, InvalidConfig) (log (snd (main randint sample_order env w0)))).
Proof.
  split; [apply validate_config_checked |]. split.
  - intros (entries & l & -> & G & H). apply validate_config_checked.
    exists entries, l. repeat split; try assumption.
    eapply Forall_impl; [| exact H]. apply name_pair_two_list.
  - intros Hn.
    assert (forall w1, fst (validate_config config w1) = false) as Hf.
    { intros w1. destruct (fst (validate_config config w1)) eqn:E;
        [| reflexivity].
      apply validate_config_checked in E. contradiction. }
    split; [apply validate_config_refusal, Hf |].
    intros env w0 L. now apply main_invalid_config with (config := config).
Qed.

(** Closes a case where the configuration is both accepted and refused. *)
Ltac refuted Hv :=
  match goal with
  | H : Ok _ = Ok _, H0 : fst (validate_config _ _) = false |- _ =>
      injection H as <-; rewrite Hv in H0; discriminate
  end.

(** Finds the ERROR call in the log of the run. *)
Ltac logged :=
  match goal with
  | |- exists m, In (ERROR, m) (log (logging _ _ (handle ?e ?w))) =>
      let m := fresh "m" in
      let Hm := fresh "Hm" in
      destruct (handle_logs_error e w) as [m Hm];
      exists m; apply logged_before; exact Hm
  | |- exists m, In (ERROR, m) (log (logging ERROR ?m' _)) =>
      exists m'; apply logged_last
  | |- In (?lv, ?m) (log (logging ?lv ?m _)) => apply logged_last
  end.

(** C8 (amended).  A configuration file that cannot be read, a refused
    configuration, an extension other than [.csv], [.xlsx], [.xls], and a
    loader that raises (a missing data file, pandas' [EmptyDataError] for a
    file with nothing to parse, or another exception) all end the run with
    a logging call at level ERROR and no output file; when an output file
    is written, it is the table [swap_data] returned for the loaded table
    and the accepted configuration. *)
Theorem fatal_conditions_write_nothing (env : environment V) w :
  let out := fst (main randint sample_order env w) in
  let w' := snd (main randint sample_order env w) in
  (forall e, load_config env = Raise e ->
     out = None /\ exists m, In (ERROR, m) (log w')) /\
  (forall config, load_config env = Ok config ->
     fst (validate_config config (logging INFO Starting w)) = false ->
     out = None /\ In (ERROR, InvalidConfig) (log w')) /\
  (load_data env = None ->
     out = None /\ exists m, In (ERROR, m) (log w')) /\
  (forall e, load_data env = Some (Raise e) ->
     out = None /\ exists m, In (ERROR, m) (log w')) /\
  (forall config, load_config env = Ok config ->
     fst (validate_config config (logging INFO Starting w)) = true ->
     (load_data env = None -> In (ERROR, UnsupportedFormat) (log w')) /\
     (load_data env = Some (Raise FileNotFoundError) ->
        In (ERROR, FileNotFound) (log w')) /\
     (load_data env = Some (Raise EmptyDataError) ->
        In (ERROR, DataFileEmpty) (log w'))) /\
  (forall df', out = Some df' ->
     exists config l df w1 w2,
       load_config env = Ok config /\
       fst (validate_config config (logging INFO Starting w)) = true /\
       load_data env = Some (Ok df) /\
       columns_to_swap_of config = Ok l /\
       swap_data randint sample_order df l w1 = (Ok df', w2) /\
       to_csv env = Ok tt).
Proof.
  cbv zeta. unfold main, main_try.
  destruct (load_config env) as [config | e0] eqn:L.
  2:{ cbn [fst snd]. repeat split; try discriminate; intros; logged. }
  destruct (validate_config config (logging INFO Starting w)) as [valid w1] eqn:Hv.
  destruct valid; cbn [fst snd negb].
  2:{ repeat split; try discriminate; intros; try logged.
      all: match goal with H : Ok _ = Ok _ |- _ => injection H as <- end.
      all: rewrite Hv in *; discriminate. }
  destruct (load_data env) as [[df | e1] |] eqn:D.
  3:{ cbn [fst snd]. repeat split; try discriminate; intros;
        try refuted Hv; logged. }
  2:{ cbn [fst snd]. repeat split; try discriminate; intros; try refuted Hv;
        try logged.
      all: match goal with H : Some _ = Some _ |- _ => injection H as -> end.
      all: apply logged_before, logged_last. }
  destruct (columns_to_swap_of config) as [l | e2] eqn:C.
  2:{ cbn [fst snd]. repeat split; try discriminate; intros; refuted Hv. }
  destruct (swap_data randint sample_order df l (logging INFO Loaded w1))
    as [[df1 | e3] w2] eqn:S.
  2:{ cbn [fst snd]. repeat split; try discriminate; intros; refuted Hv. }
  destruct (to_csv env) as [[] | e4] eqn:T.
  2:{ cbn [fst snd]. repeat split; try discriminate; intros; refuted Hv. }
  cbn [fst snd]. repeat split; try discriminate; try (intros; refuted Hv).
  intros df' [= <-].
  exists config, l, df, (logging INFO Loaded w1), w2.
  rewrite Hv. repeat split; assumption.
Qed.

End Program.

(** ** The concrete generator and sampler *)

Local Open Scope string_scope.

Lemma reversed_order_every_row : samples_every_row reversed_order.
Proof.
  intros seed n. unfold reversed_order. apply Permutation_sym, Permutation_rev.
Qed.

Lemma low_draw_in_range : randint_in_range low_draw.
Proof. intros k a b H. unfold low_draw. lia. Qed.

Lemma people_aligned : aligned people.
Proof.
  intros c v H. simpl in H.
  destruct H as [[= <- <-] | [[= <- <-] | [[= <- <-] | []]]]; reflexivity.
Qed.

(** On a table of one row the sampler has no choice. *)
Lemma one_row_order sample_order seed :
  samples_every_row sample_order -> sample_order seed 1%nat = [0%nat].
Proof.
  intros H. specialize (H seed 1%nat). simpl in H.
  now apply Permutation_sym, Permutation_length_1_inv in H.
Qed.

(** ** Order of the pairs *)

(** C4.  [swap_data] is a left-to-right fold: running it on [ps ++ qs] is
    running it on [qs] from the table and the state that [ps] leaves (an
    exception in [ps] ends the run), so a later pair works on the values
    the earlier pairs have put in its columns.  On the one-row table with
    columns [A], [B], [C] the pairs [(A,B),(B,C)] and [(B,C),(A,B)] give
    different tables whatever the sampler does. *)
Theorem pairs_fold_in_order :
  (forall (V : Type) (missing : Missing V) randint sample_order
          (df : DataFrame V) ps qs w,
      swap_data randint sample_order df (ps ++ qs) w
      = match swap_data randint sample_order df ps w with
        | (Ok df', w') => swap_data randint sample_order df' qs w'
        | (Raise e, w') => (Raise e, w')
        end) /\
  (forall randint sample_order,
      samples_every_row sample_order ->
      fst (swap_data randint sample_order table_abc
             [pair_of "A" "B"; pair_of "B" "C"] fresh_world)
      = Ok (Frame (RangeIndex 1)
              [("A", [Num 2]); ("B", [Num 3]); ("C", [Num 1])]) /\
      fst (swap_data randint sample_order table_abc
             [pair_of "B" "C"; pair_of "A" "B"] fresh_world)
      = Ok (Frame (RangeIndex 1)
              [("A", [Num 3]); ("B", [Num 1]); ("C", [Num 2])])).
Proof.
  split.
  - intros. apply swap_data_app.
  - intros randint sample_order H.
    pose proof (fun seed => one_row_order sample_order seed H) as One.
    split; vm_compute; rewrite One; vm_compute; rewrite One; reflexivity.
Qed.

Lemma pairs_fold_in_order_witness :
  fst (swap_data low_draw reversed_order table_abc
         [pair_of "A" "B"; pair_of "B" "C"] fresh_world)
  = Ok (Frame (RangeIndex 1)
          [("A", [Num 2]); ("B", [Num 3]); ("C", [Num 1])]) /\
  fst (swap_data low_draw reversed_order table_abc
         [pair_of "B" "C"; pair_of "A" "B"] fresh_world)
  = Ok (Frame (RangeIndex 1)
          [("A", [Num 3]); ("B", [Num 1]); ("C", [Num 2])]).
Proof.
  apply (proj2 pairs_fold_in_order low_draw reversed_order).
  exact reversed_order_every_row.
Defined.

(** ** The assignment of a pair *)

(** The scenario of the specification: [name, age, city], three rows, the
    pair [(age, city)], here with the sampler that reverses the rows. *)
Example scenario_age_city :
  swap_data low_draw reversed_order people [pair_of "age" "city"] fresh_world
  = (Ok (Frame (RangeIndex 3)
           [("name", [Text "ann"; Text "bob"; Text "cy"]);
            ("age", [Text "lima"; Text "rome"; Text "oslo"]);
            ("city", [Num 31; Num 45; Num 27])]),
     World 1 [(INFO, Swapped "age" "city")]).
Proof. reflexivity. Qed.

(** C1, at its failing inputs.  On the table [a], [b] whose rows are
    labelled [x], [y], the pair [(a, b)] leaves [a] with missing values
    only, not with a permutation of the values of [b]: line 71 gives the
    shuffled series the labels [0], [1], and the assignment aligns it on
    the labels of the table, which has neither.  On the table [temp_b],
    [b] numbered [0..1], the pair [(temp_b, b)] leaves no column [temp_b]
    and leaves [b] with its own values shuffled, not with the values of
    [temp_b]. *)
Theorem labelled_rows_lose_shuffled_values :
  (swap_data low_draw reversed_order table_xy [pair_of "a" "b"] fresh_world
   = (Ok (Frame [StrLabel "x"; StrLabel "y"]
            [("a", [NaN; NaN]); ("b", [Num 1; Num 2])]),
      World 1 [(INFO, Swapped "a" "b")]) /\
   getitem table_xy "b" = Ok [Num 3; Num 4] /\
   ~ Permutation [NaN; NaN] [Num 3; Num 4]) /\
  (swap_data low_draw reversed_order table_temp_first
     [pair_of "temp_b" "b"] fresh_world
   = (Ok (Frame (RangeIndex 2) [("b", [Num 4; Num 3])]),
      World 1 [(INFO, Swapped "temp_b" "b")]) /\
   getitem table_temp_first "temp_b" = Ok [Num 1; Num 2]).
Proof.
  repeat split.
  intros H. apply (Permutation_in NaN) in H; [| now left].
  simpl in H. destruct H as [H | [H | []]]; discriminate.
Qed.

Lemma table_ab_aligned : aligned table_ab.
Proof.
  intros c v H. simpl in H.
  destruct H as [[= <- <-] | [[= <- <-] | []]]; reflexivity.
Qed.

Lemma swap_pair_joint_multiset_witness :
  exists df' w' va' vb',
    swap_data low_draw reversed_order table_ab [pair_of "a" "b"] fresh_world
    = (Ok df', w') /\
    getitem df' "a" = Ok va' /\ getitem df' "b" = Ok vb' /\
    Permutation va' [Num 3; Num 4] /\ vb' = [Num 1; Num 2] /\
    Permutation (va' ++ vb') ([Num 1; Num 2] ++ [Num 3; Num 4]).
Proof.
  apply (swap_pair_joint_multiset cell low_draw reversed_order
           reversed_order_every_row table_ab "a" "b"
           [Num 1; Num 2] [Num 3; Num 4] fresh_world);
    [exact table_ab_aligned | reflexivity | discriminate | discriminate
     | reflexivity | reflexivity].
Defined.

(** C2, as stated, fails on the second column of a pair: it ends with the
    values of the first, which are not a permutation of its own. *)
Lemma second_column_not_permuted :
  exists df' w',
    swap_data low_draw reversed_order table_ab [pair_of "a" "b"] fresh_world
    = (Ok df', w') /\
    getitem table_ab "b" = Ok [Num 3; Num 4] /\
    getitem df' "b" = Ok [Num 1; Num 2] /\
    ~ Permutation [Num 1; Num 2] [Num 3; Num 4].
Proof.
  eexists. eexists. split; [vm_compute; reflexivity |].
  repeat split.
  intros H. apply (Permutation_in (Num 1)) in H; [| now left].
  simpl in H. destruct H as [H | [H | []]]; discriminate.
Qed.

(** ** Missing columns *)

Lemma missing_column_skipped_witness :
  swap_iteration low_draw reversed_order people (pair_of "age" "zipcode")
    fresh_world
  = (Ok people,
     World (draws fresh_world)
       (log fresh_world
        ++ [(ERROR, ColumnsNotFound (YStr "age") (YStr "zipcode"))])) /\
  swap_data low_draw reversed_order people
    (pair_of "age" "zipcode" :: [pair_of "age" "city"]) fresh_world
  = swap_data low_draw reversed_order people [pair_of "age" "city"]
      (logging ERROR (ColumnsNotFound (YStr "age") (YStr "zipcode"))
         fresh_world).
Proof.
  apply (missing_column_skipped cell low_draw reversed_order people
           "age" "zipcode" [pair_of "age" "city"] fresh_world).
  right. simpl. intros [H | [H | [H | []]]]; discriminate.
Defined.

(** C5, as stated, fails on the level of the diagnostic: the call made
    for a skipped pair is [logging.error]; no call is made at level
    WARNING. *)
Lemma missing_column_logged_as_error :
  exists w',
    swap_data low_draw reversed_order people [pair_of "age" "zipcode"]
      fresh_world = (Ok people, w') /\
    log w' = [(ERROR, ColumnsNotFound (YStr "age") (YStr "zipcode"))] /\
    ~ exists m, In (WARNING, m) (log w').
Proof.
  eexists. split; [vm_compute; reflexivity |]. split; [reflexivity |].
  intros [m [H | []]]. discriminate.
Qed.

(** ** Row count *)

Lemma row_count_invariant_witness :
  (forall columns_to_swap df' w',
      swap_data low_draw reversed_order people columns_to_swap fresh_world
      = (Ok df', w') ->
      nrows df' = nrows people /\ aligned df') /\
  exists df' w',
    swap_data low_draw reversed_order people (pairs_of [("age", "city")])
      fresh_world = (Ok df', w') /\
    nrows df' = nrows people /\
    aligned df' /\
    (forall c v, getitem df' c = Ok v -> List.length v = nrows people).
Proof.
  apply (row_count_invariant cell low_draw reversed_order
           reversed_order_every_row people [("age", "city")] fresh_world).
  exact people_aligned.
Defined.

(** ** The scratch column *)

Lemma scratch_column_dropped_witness :
  exists shuffled stored df',
    sample_all reversed_order [Num 3; Num 4]
      (low_draw (draws fresh_world) 0 1000) = Ok shuffled /\
    Permutation shuffled [Num 3; Num 4] /\
    stored = align (index table_scratch) shuffled /\
    with_temp reversed_order (low_draw (draws fresh_world) 0 1000)
      table_scratch "b"
    = Ok (setitem table_scratch (temp_name "b") stored) /\
    columns (setitem table_scratch (temp_name "b") stored)
    = columns table_scratch /\
    getitem (setitem table_scratch (temp_name "b") stored) (temp_name "b")
    = Ok stored /\
    swap_data low_draw reversed_order table_scratch [pair_of "a" "b"]
      fresh_world
    = (Ok df', logging INFO (Swapped "a" "b") (tick fresh_world)) /\
    columns df'
    = filter (fun k => negb (String.eqb (temp_name "b") k))
        (columns table_scratch) /\
    getitem df' (temp_name "b") = Raise KeyError /\
    getitem df' "a" = Ok stored /\
    getitem df' "b" = Ok [Num 1; Num 2] /\
    (forall c, c <> "a" -> c <> "b" -> c <> temp_name "b" ->
               getitem df' c = getitem table_scratch c).
Proof.
  apply (scratch_column_dropped cell low_draw reversed_order
           reversed_order_every_row table_scratch "a" "b"
           [Num 1; Num 2] [Num 3; Num 4] fresh_world).
  - reflexivity.
  - reflexivity.
  - simpl. right. right. now left.
  - discriminate.
  - discriminate.
Defined.

(** C6, at its failing input.  The table has the columns [a], [b] and
    [temp_b]; the only pair is [(a, b)], so [temp_b] is named in no pair;
    the table returned has no column [temp_b]. *)
Theorem scratch_collision_loses_column :
  getitem table_scratch "temp_b" = Ok [Num 5; Num 6] /\
  exists df' w',
    swap_data low_draw reversed_order table_scratch [pair_of "a" "b"]
      fresh_world = (Ok df', w') /\
    columns df' = ["a"; "b"] /\
    getitem df' "temp_b" = Raise KeyError.
Proof.
  split; [reflexivity |].
  eexists. eexists. split; [vm_compute; reflexivity |].
  split; reflexivity.
Qed.

(** ** How many orders a seed can choose *)



(** ** Runs of main *)

(** C8, as stated, fails for a data file that parses to zero rows: the
    table is loaded, transformed and written. *)
Lemma zero_rows_still_written :
  nrows header_only = 0%nat /\
  load_data header_only_run = Some (Ok header_only) /\
  fst (main low_draw reversed_order header_only_run fresh_world)
  = Some header_only.
Proof. repeat split. Qed.

Lemma fatal_conditions_write_nothing_witness :
  fst (main low_draw reversed_order missing_data_run fresh_world) = None /\
  exists m,
    In (ERROR, m)
      (log (snd (main low_draw reversed_order missing_data_run fresh_world))).
Proof.
  apply (proj1 (proj2 (proj2 (proj2
           (fatal_conditions_write_nothing cell low_draw reversed_order
              missing_data_run fresh_world))))
           FileNotFoundError).
  reflexivity.
Defined.

(** C9, as stated, fails on the type of the items of a pair:
    [validate_config] accepts a pair of two integers, which is not a pair
    of column-name strings. *)
Lemma integer_pair_accepted :
  fst (validate_config integer_pair_config fresh_world) = true /\
  ~ spec_valid_config integer_pair_config.
Proof.
  split; [reflexivity |].
  intros (entries & l & [= <-] & G & H). simpl in G. injection G as <-.
  inversion H as [| y rest (a & b & E) _]. discriminate.
Qed.

Lemma validate_config_shape_witness :
  (exists m,
      snd (validate_config string_config fresh_world)
      = logging ERROR m fresh_world) /\
  forall (env : environment cell) w0,
    load_config env = Ok string_config ->
    fst (main low_draw reversed_order env w0) = None /\
    In (ERROR, InvalidConfig)
      (log (snd (main low_draw reversed_order env w0))).
Proof.
  apply (proj2 (proj2 (validate_config_shape cell low_draw reversed_order
                         string_config fresh_world))).
  intros (entries & l & [= <-] & G & _). discriminate.
Defined.

(** ** Runs without a scratch collision *)

Local Close Scope string_scope.

Section Runs.

Variable V : Type.
Context {missing : Missing V}.
Variable randint : nat -> Z -> Z -> Z.
Variable sample_order : Z -> nat -> list nat.
Hypothesis every_row : samples_every_row sample_order.

Implicit Types (df : DataFrame V) (l : list (string * column V)) (c : string).

Lemma assign_fresh c v l :
  ~ In c (map fst l) -> assign c v l = l ++ [(c, v)].
Proof.
  induction l as [| [k u] rest IH]; simpl; [reflexivity |].
  intros H. destruct (String.eqb c k) eqn:E.
  - apply String.eqb_eq in E. subst k. tauto.
  - f_equal. apply IH. tauto.
Qed.

Lemma assign_app c v l tail :
  In c (map fst l) -> assign c v (l ++ tail) = assign c v l ++ tail.
Proof.
  induction l as [| [k u] rest IH]; simpl; [tauto |].
  intros H. destruct (String.eqb c k) eqn:E; [reflexivity |].
  simpl. f_equal. apply IH. destruct H as [-> | H]; [| assumption].
  now rewrite String.eqb_refl in E.
Qed.

Lemma remove_label_absent c l :
  ~ In c (map fst l) -> remove_label c l = l.
Proof.
  induction l as [| [k u] rest IH]; simpl; [reflexivity |].
  intros H. destruct (String.eqb c k) eqn:E; simpl.
  - apply String.eqb_eq in E. subst k. tauto.
  - f_equal. apply IH. tauto.
Qed.

(** When the scratch label is new, the four statements amount to the two
    assignments to [col2] and [col1]. *)
Lemma swapped_cols_fresh c1 c2 (shuffled x : column V) l :
  ~ In (temp_name c2) (map fst l) ->
  In c1 (map fst l) -> In c2 (map fst l) ->
  swapped_cols c1 c2 shuffled x l = assign c1 shuffled (assign c2 x l).
Proof.
  intros Nt I1 I2. unfold swapped_cols.
  rewrite (assign_fresh _ _ _ Nt).
  rewrite (assign_app _ _ _ _ I2).
  rewrite assign_app by now apply in_labels_assign.
  unfold remove_label. rewrite filter_app. cbn [filter fst].
  rewrite String.eqb_refl. cbn [negb]. rewrite app_nil_r.
  apply remove_label_absent.
  now rewrite !labels_assign_in by (try apply in_labels_assign; assumption).
Qed.

Lemma cells_assign c (v u : column V) l :
  lookup c l = Some u ->
  Permutation (List.concat (map snd (assign c v l)) ++ u)
              (List.concat (map snd l) ++ v).
Proof.
  induction l as [| [k t] rest IH]; simpl; [discriminate |].
  destruct (String.eqb c k) eqn:E; simpl.
  - intros [= ->]. rewrite <- !app_assoc.
    apply Permutation_trans with (u ++ v ++ List.concat (map snd rest)).
    + rewrite (app_assoc v). apply Permutation_app_comm.
    + apply Permutation_app_head, Permutation_app_comm.
  - intros H. rewrite <- !app_assoc. apply Permutation_app_head. now apply IH.
Qed.

(** One processed pair whose scratch label is new: the labels stay as
    they are; on a table whose rows are numbered [0..N-1] the cells of the
    table are the same, in another place. *)
Lemma swap_columns_fresh seed df c1 c2 :
  In c1 (columns df) -> In c2 (columns df) ->
  ~ In (temp_name c2) (columns df) ->
  exists df',
    swap_columns sample_order seed df c1 c2 = Ok df' /\
    columns df' = columns df /\
    (aligned df -> default_index df -> Permutation (cells df') (cells df)).
Proof.
  intros I1 I2 Nt.
  destruct (swap_columns_total V sample_order every_row seed df c1 c2 I1 I2)
    as (v2 & shuffled & x & G2 & Hs & HP & Gx & Heq).
  rewrite Heq. eexists. split; [reflexivity |].
  assert (aligned df -> default_index df ->
          Permutation (align (index df) shuffled) v2) as HP'.
  { intros Ha Hd. now rewrite (align_shuffled V df c2 v2 shuffled Ha Hd G2 HP). }
  revert Gx HP'. generalize (align (index df) shuffled). intros stored Gx HP'.
  assert (c1 <> temp_name c2) as N1 by (intros ->; contradiction).
  rewrite getitem_setitem_other in Gx by congruence.
  unfold getitem in G2, Gx.
  destruct (lookup c2 (cols df)) as [u2 |] eqn:L2; [| discriminate].
  destruct (lookup c1 (cols df)) as [u1 |] eqn:L1; [| discriminate].
  injection G2 as ->. injection Gx as ->.
  unfold columns, cells in *. simpl.
  rewrite swapped_cols_fresh by assumption. split.
  - now rewrite !labels_assign_in by (try apply in_labels_assign; assumption).
  - intros Ha Hd. specialize (HP' Ha Hd).
    assert (lookup c1 (assign c2 x (cols df)) = Some x) as L1'.
    { destruct (string_dec c2 c1) as [-> | N].
      - apply lookup_assign_same.
      - now rewrite lookup_assign_other. }
    pose proof (cells_assign c1 stored x _ L1') as P1.
    pose proof (cells_assign c2 x v2 _ L2) as P2.
    apply Permutation_app_inv_r with (l := x ++ v2).
    rewrite !app_assoc.
    apply Permutation_trans
      with ((List.concat (map snd (assign c2 x (cols df))) ++ stored) ++ v2);
      [now apply Permutation_app_tail |].
    apply Permutation_trans
      with ((List.concat (map snd (assign c2 x (cols df))) ++ v2) ++ stored).
    { rewrite <- !app_assoc. apply Permutation_app_head, Permutation_app_comm. }
    apply Permutation_trans with ((List.concat (map snd (cols df)) ++ x) ++ stored);
      [now apply Permutation_app_tail |].
    now apply Permutation_app_head.
Qed.

Lemma no_scratch_label_tail df df' p names :
  columns df' = columns df ->
  no_scratch_label df (p :: names) -> no_scratch_label df' names.
Proof.
  intros E H a b Hin. rewrite E. apply (H a b). now right.
Qed.

Lemma default_index_kept df df' :
  index df' = index df -> default_index df -> default_index df'.
Proof.
  unfold default_index, nrows. intros E H. now rewrite E.
Qed.

Lemma run_without_collision df names w df' w' :
  swap_data randint sample_order df (pairs_of names) w = (Ok df', w') ->
  no_scratch_label df names ->
  columns df' = columns df /\
  (aligned df -> default_index df -> Permutation (cells df') (cells df)).
Proof.
  revert df w. induction names as [| [a b] rest IH]; intros df w; simpl.
  - intros [= <- <-] _. split; [reflexivity | intros; apply Permutation_refl].
  - intros H Hn.
    destruct (swap_iteration randint sample_order df (pair_of a b) w)
      as [[d | e] w1] eqn:E; [| discriminate].
    apply swap_iteration_cases in E.
    destruct E as [[-> _] | (c1 & c2 & U & I1 & I2 & S & _)].
    + apply (IH _ _ H). intros x y Hin. apply (Hn x y). now right.
    + injection U as <- <-.
      destruct (swap_columns_fresh (randint (draws w) 0 1000) df a b I1 I2
                  (Hn a b (or_introl eq_refl))) as (d' & S' & Ec & Pc).
      rewrite S in S'. injection S' as <-.
      destruct (IH _ _ H (no_scratch_label_tail df d (a, b) rest Ec Hn))
        as [E1 P1].
      split; [congruence |].
      intros Ha Hd.
      pose proof (swap_columns_index V sample_order every_row _ _ _ _ _
                    I1 I2 S) as Ei.
      pose proof (proj2 (swap_columns_shape V sample_order every_row _ _ _ _ _
                           I1 I2 S) Ha) as Ha'.
      eapply Permutation_trans;
        [apply P1; [assumption | now apply (default_index_kept df)] |
         now apply Pc].
Qed.

(** X1.  A column that no pair names and that is the scratch label of no
    pair is, after the run, what it was before: present with the same
    cells in the same order, or absent as before. *)
Theorem unnamed_columns_untouched df names w c :
  (forall a b, In (a, b) names -> c <> a /\ c <> b /\ c <> temp_name b) ->
  exists df' w',
    swap_data randint sample_order df (pairs_of names) w = (Ok df', w') /\
    getitem df' c = getitem df c.
Proof.
  intros Hc.
  destruct (swap_data_total V randint sample_order every_row df names w)
    as (df' & w' & H).
  exists df', w'. split; [assumption |].
  exact (untouched_column V randint sample_order every_row
           df names w df' w' c H Hc).
Qed.

(** X2.  When no pair has its scratch label among the labels of the
    table, the run adds, removes and moves no column: the labels of the
    table returned are those of the input, in the same order. *)
Theorem labels_kept_without_collision df names w :
  no_scratch_label df names ->
  exists df' w',
    swap_data randint sample_order df (pairs_of names) w = (Ok df', w') /\
    columns df' = columns df.
Proof.
  intros Hn.
  destruct (swap_data_total V randint sample_order every_row df names w)
    as (df' & w' & H).
  exists df', w'. split; [assumption |].
  exact (proj1 (run_without_collision df names w df' w' H Hn)).
Qed.

(** X3.  On a table whose rows are numbered [0..N-1] and whose columns
    have the length of the index, when no pair has its scratch label among
    the labels of the table, the run creates and loses no value: the cells
    of the table returned are a permutation of the cells of the input. *)
Theorem cells_kept_without_collision df names w :
  aligned df -> default_index df ->
  no_scratch_label df names ->
  exists df' w',
    swap_data randint sample_order df (pairs_of names) w = (Ok df', w') /\
    Permutation (cells df') (cells df).
Proof.
  intros Ha Hd Hn.
  destruct (swap_data_total V randint sample_order every_row df names w)
    as (df' & w' & H).
  exists df', w'. split; [assumption |].
  exact (proj2 (run_without_collision df names w df' w' H Hn) Ha Hd).
Qed.

(** X4.  On a table whose rows are numbered [0..N-1] and whose columns
    have the length of the index, the pair [(a, b)] followed by the pair
    [(b, a)] gives [a] back its original values in their original order
    and leaves in [b] a permutation of its original values; two seeds are
    drawn. *)
Theorem swap_there_and_back df a b va vb w :
  aligned df -> default_index df ->
  a <> b -> a <> temp_name b -> b <> temp_name a ->
  getitem df a = Ok va -> getitem df b = Ok vb ->
  exists df' w' vb',
    swap_data randint sample_order df [pair_of a b; pair_of b a] w
    = (Ok df', w') /\
    getitem df' a = Ok va /\
    getitem df' b = Ok vb' /\ Permutation vb' vb /\
    draws w' = 2 + draws w.
Proof.
  intros Hal Hd Nab Nt1 Nt2 Ga Gb.
  destruct (swap_columns_distinct V sample_order every_row
              (randint (draws w) 0 1000) df a b va vb Nab Nt1 Ga Gb)
    as (df1 & s1 & S1 & _ & P1 & Ga1 & Gb1 & Ei).
  rewrite (align_shuffled V df b vb s1 Hal Hd Gb P1) in Ga1.
  pose proof (proj2 (swap_columns_shape V sample_order every_row _ _ _ _ _
                       (getitem_present V _ _ _ Ga)
                       (getitem_present V _ _ _ Gb) S1) Hal) as Hal1.
  pose proof (default_index_kept df df1 Ei Hd) as Hd1.
  set (w1 := logging INFO (Swapped a b) (tick w)).
  destruct (swap_columns_distinct V sample_order every_row
              (randint (draws w1) 0 1000) df1 b a va s1
              (not_eq_sym Nab) Nt2 Gb1 Ga1)
    as (df2 & s2 & S2 & _ & P2 & Gb2 & Ga2 & _).
  rewrite (align_shuffled V df1 a s1 s2 Hal1 Hd1 Ga1 P2) in Gb2.
  exists df2, (logging INFO (Swapped b a) (tick w1)), s2.
  repeat split; try assumption.
  - cbn [swap_data].
    rewrite (swap_iteration_processed V randint sample_order df a b w)
      by eauto using getitem_present.
    rewrite S1. fold w1.
    rewrite (swap_iteration_processed V randint sample_order df1 b a w1)
      by eauto using getitem_present.
    now rewrite S2.
  - eapply Permutation_trans; eassumption.
Qed.

(** X5.  On a table whose rows are numbered [0..N-1] and whose columns
    have the length of the index, a pair that names one column twice
    leaves in it a permutation of its own values, and leaves every column
    other than it and its scratch label as it was. *)
Theorem self_pair_shuffles df a va w :
  aligned df -> default_index df ->
  getitem df a = Ok va ->
  exists df' w' va',
    swap_data randint sample_order df [pair_of a a] w = (Ok df', w') /\
    getitem df' a = Ok va' /\ Permutation va' va /\
    forall c, c <> a -> c <> temp_name a -> getitem df' c = getitem df c.
Proof.
  intros Hal Hd Ga. pose proof (getitem_present V df a va Ga) as Ia.
  destruct (swap_columns_total V sample_order every_row
              (randint (draws w) 0 1000) df a a Ia Ia)
    as (v2 & shuffled & x & G2 & Hs & HP & Gx & Heq).
  rewrite Ga in G2. injection G2 as <-.
  rewrite (align_shuffled V df a va shuffled Hal Hd Ga HP) in Heq.
  eexists. exists (logging INFO (Swapped a a) (tick w)), shuffled.
  split; [exact (swap_data_single V randint sample_order df a a w _ Ia Ia Heq) |].
  unfold getitem. simpl. repeat split.
  - rewrite lookup_swapped_col1; [reflexivity |].
    intros E. symmetry in E. now apply temp_name_neq in E.
  - assumption.
  - intros c N1 N2. now rewrite lookup_swapped_other.
Qed.

(** X6.  On a table whose rows are numbered [0..N-1] and whose columns
    have the length of the index, a pair whose first name is the scratch
    label of its second, [("temp_" ++ b, b)], loses the column it names
    first: the table returned has no column of that label, and [b] holds
    a permutation of its own values. *)
Theorem scratch_named_first df b vb w :
  aligned df -> default_index df ->
  getitem df b = Ok vb -> In (temp_name b) (columns df) ->
  exists df' w' vb',
    swap_data randint sample_order df [pair_of (temp_name b) b] w
    = (Ok df', w') /\
    ~ In (temp_name b) (columns df') /\
    getitem df' b = Ok vb' /\ Permutation vb' vb.
Proof.
  intros Hal Hd Gb It. pose proof (getitem_present V df b vb Gb) as Ib.
  destruct (swap_columns_total V sample_order every_row
              (randint (draws w) 0 1000) df (temp_name b) b It Ib)
    as (v2 & shuffled & x & G2 & Hs & HP & Gx & Heq).
  rewrite Gb in G2. injection G2 as <-.
  rewrite getitem_setitem_same in Gx. injection Gx as <-.
  rewrite (align_shuffled V df b vb shuffled Hal Hd Gb HP) in Heq.
  eexists. exists (logging INFO (Swapped (temp_name b) b) (tick w)), shuffled.
  split;
    [exact (swap_data_single V randint sample_order df (temp_name b) b w _
              It Ib Heq) |].
  repeat split.
  - apply temp_not_in_swapped.
  - unfold getitem. simpl.
    now rewrite lookup_swapped_col2 by apply temp_name_neq.
  - assumption.
Qed.

(** ** Logging calls and seeds of a run *)

(** X7.  When every pair has a name that is not a label of the table, the
    run returns the table as it was, draws no seed, and makes one logging
    call at level ERROR per pair, in the order of the pairs. *)
Theorem only_missing_columns df names w :
  (forall a b, In (a, b) names ->
     ~ In a (columns df) \/ ~ In b (columns df)) ->
  swap_data randint sample_order df (pairs_of names) w
  = (Ok df, World (draws w) (log w ++ map not_found_record names)).
Proof.
  revert w. induction names as [| [a b] rest IH]; intros w H.
  - simpl. rewrite app_nil_r. now destruct w.
  - cbn [pairs_of map fst snd swap_data].
    rewrite swap_iteration_skipped by (apply H; now left).
    fold (pairs_of rest). rewrite IH by (intros; apply H; now right).
    unfold logging. cbn [draws log map]. now rewrite <- app_assoc.
Qed.

(** X8.  A run that returns a table has made one logging call per element
    of [columns_to_swap], each either the INFO call of a processed pair or
    the ERROR call of a skipped one, after the calls made before; and it
    has called [random.randint] once per processed pair. *)
Theorem one_record_per_pair df columns_to_swap w df' w' :
  swap_data randint sample_order df columns_to_swap w = (Ok df', w') ->
  exists added,
    log w' = log w ++ added /\
    List.length added = List.length columns_to_swap /\
    Forall (fun r => is_swapped r = true \/ is_not_found r = true) added /\
    draws w' = draws w + List.length (filter is_swapped added).
Proof.
  revert df w. induction columns_to_swap as [| p rest IH]; intros df w; simpl.
  - intros [= <- <-]. exists []. rewrite app_nil_r. repeat split.
    + constructor.
    + simpl. lia.
  - destruct (swap_iteration randint sample_order df p w) as [[d | e] w1] eqn:E;
      [| discriminate].
    intros H. destruct (IH _ _ H) as (added & L & N & F & D).
    apply swap_iteration_cases in E.
    destruct E as [(-> & Dw & col1 & col2 & ->)
                  | (c1 & c2 & _ & _ & _ & _ & ->)].
    + exists ((ERROR, ColumnsNotFound col1 col2) :: added).
      rewrite L, D. simpl. rewrite <- app_assoc. repeat split.
      * now rewrite N.
      * constructor; [now right | assumption].
    + exists ((INFO, Swapped c1 c2) :: added).
      rewrite L, D. simpl. rewrite <- app_assoc. repeat split.
      * now rewrite N.
      * constructor; [now left | assumption].
      * lia.
Qed.

(** ** validate_config before swap_data *)

Lemma validate_pairs_draws (pairs : list yaml) w :
  draws (snd (validate_pairs pairs w)) = draws w.
Proof.
  rewrite validate_pairs_log. now destruct (fst (validate_pairs pairs w)).
Qed.

(** X9.  [validate_config] never calls the random generator; when it
    accepts it makes no logging call, and when it refuses it makes one,
    at level ERROR, with one of its four messages. *)
Theorem validate_config_trace config w :
  draws (snd (validate_config config w)) = draws w /\
  (fst (validate_config config w) = true ->
   snd (validate_config config w) = w) /\
  (fst (validate_config config w) = false ->
   exists m,
     snd (validate_config config w) = logging ERROR m w /\
     In m [ConfigNotDict; ConfigMissingKey; ConfigNotList; ConfigBadPair]).
Proof.
  destruct config as [| b | z | s | items | entries]; simpl;
    try (repeat split; [discriminate | intros _; eexists; split;
                                       [reflexivity | simpl; tauto]]).
  destruct (dict_get "columns_to_swap" entries) as [[| b | z | s | l | d] |];
    simpl;
    try (repeat split; [discriminate | intros _; eexists; split;
                                       [reflexivity | simpl; tauto]]).
  rewrite validate_pairs_draws, validate_pairs_log.
  repeat split.
  - now intros ->.
  - intros ->. eexists. split; [reflexivity | simpl; tauto].
Qed.

Lemma find_label_raise df key e :
  find_label df key = Raise e -> e = TypeError /\ unhashable key.
Proof.
  destruct key; simpl; try discriminate; intros [= <-]; now split.
Qed.

Lemma swap_iteration_raise df x1 x2 w e w' :
  swap_iteration randint sample_order df (YList [x1; x2]) w = (Raise e, w') ->
  e = TypeError /\ (unhashable x1 \/ unhashable x2).
Proof.
  unfold swap_iteration. cbn [unpack2].
  destruct (find_label df x1) as [[c1 |] | e1] eqn:F1.
  - destruct (find_label df x2) as [[c2 |] | e2] eqn:F2.
    + apply find_label_found in F1, F2.
      destruct F1 as [_ I1], F2 as [_ I2].
      destruct (swap_columns_total V sample_order every_row
                  (randint (draws w) 0 1000) df c1 c2 I1 I2)
        as (v2 & shuffled & x & _ & _ & _ & _ & ->).
      discriminate.
    + discriminate.
    + intros [= <- _]. apply find_label_raise in F2. tauto.
  - discriminate.
  - intros [= <- _]. apply find_label_raise in F1. tauto.
Qed.

Lemma swap_data_raise df (pairs : list yaml) w e w' :
  Forall is_two_list pairs ->
  swap_data randint sample_order df pairs w = (Raise e, w') ->
  e = TypeError /\
  exists x1 x2,
    In (YList [x1; x2]) pairs /\ (unhashable x1 \/ unhashable x2).
Proof.
  intros F. revert df w. induction F as [| p rest (x1 & x2 & ->) _ IH];
    intros df w; simpl.
  - discriminate.
  - destruct (swap_iteration randint sample_order df (YList [x1; x2]) w)
      as [[d | e1] w1] eqn:E.
    + intros H. destruct (IH _ _ H) as (-> & y1 & y2 & Hin & Hu).
      split; [reflexivity |]. exists y1, y2. split; [now right | assumption].
    + intros [= <- <-]. apply swap_iteration_raise in E.
      destruct E as [-> Hu]. split; [reflexivity |].
      exists x1, x2. split; [now left | assumption].
Qed.

(** X10.  For a configuration that [validate_config] accepts,
    [config["columns_to_swap"]] is there, and the only exception
    [swap_data] can raise on it is [TypeError], which takes a pair with a
    list or a dict as one of its two items. *)
Theorem validated_run_raises_only_type_error config w0 :
  fst (validate_config config w0) = true ->
  exists pairs,
    columns_to_swap_of config = Ok pairs /\
    forall df w e w',
      swap_data randint sample_order df pairs w = (Raise e, w') ->
      e = TypeError /\
      exists x1 x2,
        In (YList [x1; x2]) pairs /\ (unhashable x1 \/ unhashable x2).
Proof.
  intros H. apply validate_config_checked in H.
  destruct H as (entries & l & -> & G & F).
  exists l. split; [simpl; now rewrite G |].
  intros df w e w'. now apply swap_data_raise.
Qed.

(** ** Runs of main, end to end *)

Lemma name_pairs_names (pairs : list yaml) :
  Forall is_name_pair pairs -> exists names, pairs = pairs_of names.
Proof.
  induction 1 as [| y rest (a & b & ->) _ (names & ->)].
  - now exists [].
  - now exists ((a, b) :: names).
Qed.

(** X11.  With a configuration of the shape of the specification, a
    supported extension, a loader that returns an aligned table and a
    destination that can be written, [main] writes a table: it has the
    row count of the loaded one and aligned columns, and the log ends
    with the calls for the saved file and for completion. *)
Theorem main_writes_on_good_input (env : environment V) w config df :
  load_config env = Ok config -> spec_valid_config config ->
  load_data env = Some (Ok df) -> to_csv env = Ok tt -> aligned df ->
  exists df' before,
    fst (main randint sample_order env w) = Some df' /\
    nrows df' = nrows df /\ aligned df' /\
    log (snd (main randint sample_order env w))
    = before ++ [(INFO, Saved); (INFO, Completed)].
Proof.
  intros L (entries & l & -> & G & F) D T Ha.
  destruct (name_pairs_names l F) as (names & ->).
  assert (fst (validate_config (YDict entries) (logging INFO Starting w)) = true)
    as Hv.
  { apply validate_config_checked. exists entries, (pairs_of names).
    repeat split; try assumption.
    eapply Forall_impl; [| exact F]. apply name_pair_two_list. }
  pose proof (proj1 (proj2 (validate_config_trace (YDict entries)
                              (logging INFO Starting w))) Hv) as Hw.
  destruct (swap_data_total V randint sample_order every_row df names
              (logging INFO Loaded (logging INFO Starting w)))
    as (df' & w' & S).
  destruct (swap_data_shape V randint sample_order every_row _ _ _ _ _ S)
    as [Hn Hal].
  exists df', (log w').
  unfold main, main_try. rewrite L.
  destruct (validate_config (YDict entries) (logging INFO Starting w))
    as [valid w1]. simpl in Hv, Hw. subst valid w1. cbn [negb].
  rewrite D. cbn [columns_to_swap_of]. rewrite G, S, T. cbn [fst snd].
  repeat split; [assumption | now apply Hal |].
  unfold logging. cbn [log]. now rewrite <- app_assoc.
Qed.

(** X12.  A configuration file that cannot be read or a configuration
    that is refused decides the run before the data file is looked at:
    the output and the log are the same whatever the extension, the
    loaders and the destination. *)
Theorem bad_config_ignores_data (env env' : environment V) w :
  load_config env' = load_config env ->
  (exists e, load_config env = Raise e) \/
  (exists config,
      load_config env = Ok config /\
      fst (validate_config config (logging INFO Starting w)) = false) ->
  main randint sample_order env' w = main randint sample_order env w.
Proof.
  intros E H. unfold main, main_try. rewrite E.
  destruct H as [[e ->] | (config & -> & Hv)]; [reflexivity |].
  destruct (validate_config config (logging INFO Starting w)) as [valid w1].
  simpl in Hv. now subst valid.
Qed.

(** X13.  A configuration whose first pair has a list or a dict as its
    first item passes [validate_config]; [main] then loads the table,
    [swap_data] raises on the first pair, and the run ends with the two
    ERROR calls of the last handler and no output file. *)
Theorem unhashable_name_aborts (env : environment V) w col1 col2 rest df :
  unhashable col1 -> Forall is_two_list rest ->
  load_config env = Ok (config_of (YList [col1; col2] :: rest)) ->
  load_data env = Some (Ok df) ->
  fst (validate_config (config_of (YList [col1; col2] :: rest)) w) = true /\
  main randint sample_order env w
  = (None,
     World (draws w)
       (log w ++ [(INFO, Starting); (INFO, Loaded); (ERROR, ErrorOccurred);
                  (ERROR, DetailedError); (INFO, Completed)])).
Proof.
  intros Hu F L D.
  assert (forall w1,
             fst (validate_config (config_of (YList [col1; col2] :: rest)) w1)
             = true) as Hv.
  { intros w1. apply validate_config_checked.
    exists [(YStr "columns_to_swap", YList (YList [col1; col2] :: rest))],
      (YList [col1; col2] :: rest).
    repeat split. constructor; [now exists col1, col2 | assumption]. }
  split; [apply Hv |].
  pose proof (proj1 (proj2 (validate_config_trace _ (logging INFO Starting w)))
                (Hv _)) as Hw.
  unfold main, main_try. rewrite L.
  destruct (validate_config (config_of (YList [col1; col2] :: rest))
              (logging INFO Starting w)) as [valid w1] eqn:E.
  pose proof (Hv (logging INFO Starting w)) as Hv'. rewrite E in Hv'.
  simpl in Hv', Hw. subst valid w1. cbn [negb]. rewrite D.
  cbn [columns_to_swap_of config_of dict_get]. rewrite String.eqb_refl.
  cbn [swap_data]. unfold swap_iteration. cbn [unpack2].
  destruct col1; try contradiction; cbn [find_label handle];
    unfold logging; cbn [draws log]; now rewrite <- !app_assoc.
Qed.

Lemma pairs_of_two_lists names : Forall is_two_list (pairs_of names).
Proof.
  induction names as [| [a b] rest IH]; simpl; constructor;
    [now exists (YStr a), (YStr b) | assumption].
Qed.

(** X14.  When every pair of the configuration has a name that is not a
    label of the loaded table, [main] still completes: it writes the
    loaded table as it is, after one ERROR call per pair. *)
Theorem main_with_only_missing_columns (env : environment V) w names df :
  load_config env = Ok (config_of (pairs_of names)) ->
  load_data env = Some (Ok df) -> to_csv env = Ok tt ->
  (forall a b, In (a, b) names ->
     ~ In a (columns df) \/ ~ In b (columns df)) ->
  main randint sample_order env w
  = (Some df,
     World (draws w)
       (log w ++ [(INFO, Starting); (INFO, Loaded)]
        ++ map not_found_record names
        ++ [(INFO, Saved); (INFO, Completed)])).
Proof.
  intros L D T H.
  assert (fst (validate_config (config_of (pairs_of names))
                 (logging INFO Starting w)) = true) as Hv.
  { apply validate_config_checked.
    exists [(YStr "columns_to_swap", YList (pairs_of names))], (pairs_of names).
    repeat split. apply pairs_of_two_lists. }
  pose proof (proj1 (proj2 (validate_config_trace _ _)) Hv) as Hw.
  unfold main, main_try. rewrite L.
  destruct (validate_config (config_of (pairs_of names))
              (logging INFO Starting w)) as [valid w1].
  simpl in Hv, Hw. subst valid w1. cbn [negb]. rewrite D.
  cbn [columns_to_swap_of config_of dict_get]. rewrite String.eqb_refl.
  rewrite (only_missing_columns df names _ H), T.
  unfold logging. cbn [draws log]. now rewrite <- !app_assoc.
Qed.

End Runs.

Local Open Scope string_scope.

(** ** The further properties at concrete inputs *)

Lemma table_scratch_aligned : aligned table_scratch.
Proof.
  intros c v H. simpl in H.
  destruct H as [[= <- <-] | [[= <- <-] | [[= <- <-] | []]]]; reflexivity.
Qed.

Lemma people_no_scratch : no_scratch_label people [("age", "city")].
Proof.
  intros a b [[= <- <-] | []]. simpl.
  intros [H | [H | [H | []]]]; discriminate.
Qed.

Lemma unnamed_columns_untouched_witness :
  exists df' w',
    swap_data low_draw reversed_order people (pairs_of [("age", "city")])
      fresh_world = (Ok df', w') /\
    getitem df' "name" = getitem people "name".
Proof.
  apply (unnamed_columns_untouched cell low_draw reversed_order
           reversed_order_every_row people [("age", "city")] fresh_world
           "name").
  intros a b [[= <- <-] | []]. repeat split; discriminate.
Defined.

Lemma labels_kept_without_collision_witness :
  exists df' w',
    swap_data low_draw reversed_order people (pairs_of [("age", "city")])
      fresh_world = (Ok df', w') /\
    columns df' = columns people.
Proof.
  apply (labels_kept_without_collision cell low_draw reversed_order
           reversed_order_every_row people [("age", "city")] fresh_world).
  exact people_no_scratch.
Defined.

Lemma cells_kept_without_collision_witness :
  exists df' w',
    swap_data low_draw reversed_order people (pairs_of [("age", "city")])
      fresh_world = (Ok df', w') /\
    Permutation (cells df') (cells people).
Proof.
  apply (cells_kept_without_collision cell low_draw reversed_order
           reversed_order_every_row people [("age", "city")] fresh_world).
  - exact people_aligned.
  - reflexivity.
  - exact people_no_scratch.
Defined.

Lemma swap_there_and_back_witness :
  exists df' w' vb',
    swap_data low_draw reversed_order table_ab
      [pair_of "a" "b"; pair_of "b" "a"] fresh_world = (Ok df', w') /\
    getitem df' "a" = Ok [Num 1; Num 2] /\
    getitem df' "b" = Ok vb' /\ Permutation vb' [Num 3; Num 4] /\
    draws w' = (2 + draws fresh_world)%nat.
Proof.
  apply (swap_there_and_back cell low_draw reversed_order
           reversed_order_every_row table_ab "a" "b"
           [Num 1; Num 2] [Num 3; Num 4] fresh_world);
    [exact table_ab_aligned | reflexivity | discriminate | discriminate
     | discriminate | reflexivity | reflexivity].
Defined.

Lemma self_pair_shuffles_witness :
  exists df' w' va',
    swap_data low_draw reversed_order table_ab [pair_of "a" "a"] fresh_world
    = (Ok df', w') /\
    getitem df' "a" = Ok va' /\ Permutation va' [Num 1; Num 2] /\
    forall c, c <> "a" -> c <> temp_name "a" ->
              getitem df' c = getitem table_ab c.
Proof.
  apply (self_pair_shuffles cell low_draw reversed_order
           reversed_order_every_row table_ab "a" [Num 1; Num 2] fresh_world).
  - exact table_ab_aligned.
  - reflexivity.
  - reflexivity.
Defined.

Lemma scratch_named_first_witness :
  exists df' w' vb',
    swap_data low_draw reversed_order table_scratch
      [pair_of (temp_name "b") "b"] fresh_world = (Ok df', w') /\
    ~ In (temp_name "b") (columns df') /\
    getitem df' "b" = Ok vb' /\ Permutation vb' [Num 3; Num 4].
Proof.
  apply (scratch_named_first cell low_draw reversed_order
           reversed_order_every_row table_scratch "b" [Num 3; Num 4]
           fresh_world).
  - exact table_scratch_aligned.
  - reflexivity.
  - reflexivity.
  - simpl. right. right. now left.
Defined.

Lemma only_missing_columns_witness :
  swap_data low_draw reversed_order people
    (pairs_of [("age", "zipcode"); ("zip", "name")]) fresh_world
  = (Ok people,
     World (draws fresh_world)
       (log fresh_world
        ++ map not_found_record [("age", "zipcode"); ("zip", "name")])).
Proof.
  apply (only_missing_columns cell low_draw reversed_order people
           [("age", "zipcode"); ("zip", "name")] fresh_world).
  intros a b [[= <- <-] | [[= <- <-] | []]]; [right | left]; simpl;
    intros [H | [H | [H | []]]]; discriminate.
Defined.

Lemma one_record_per_pair_witness :
  exists added,
    log (World 1 [(ERROR, ColumnsNotFound (YStr "age") (YStr "zipcode"));
                  (INFO, Swapped "age" "city")])
    = (log fresh_world ++ added)%list /\
    List.length added
    = List.length [pair_of "age" "zipcode"; pair_of "age" "city"] /\
    Forall (fun r => is_swapped r = true \/ is_not_found r = true) added /\
    draws (World 1 [(ERROR, ColumnsNotFound (YStr "age") (YStr "zipcode"));
                    (INFO, Swapped "age" "city")])
    = (draws fresh_world + List.length (filter is_swapped added))%nat.
Proof.
  apply (one_record_per_pair cell low_draw reversed_order people
           [pair_of "age" "zipcode"; pair_of "age" "city"] fresh_world
           people_swapped).
  reflexivity.
Defined.

Lemma validate_config_trace_witness :
  exists m,
    snd (validate_config string_config fresh_world)
    = logging ERROR m fresh_world /\
    In m [ConfigNotDict; ConfigMissingKey; ConfigNotList; ConfigBadPair].
Proof.
  apply (proj2 (proj2 (validate_config_trace string_config fresh_world))).
  reflexivity.
Defined.

Lemma validated_run_raises_only_type_error_witness :
  exists pairs,
    columns_to_swap_of list_name_config = Ok pairs /\
    forall (df : DataFrame cell) w e w',
      swap_data low_draw reversed_order df pairs w = (Raise e, w') ->
      e = TypeError /\
      exists x1 x2,
        In (YList [x1; x2]) pairs /\ (unhashable x1 \/ unhashable x2).
Proof.
  apply (validated_run_raises_only_type_error cell low_draw reversed_order
           reversed_order_every_row list_name_config fresh_world).
  reflexivity.
Defined.

Lemma main_writes_on_good_input_witness :
  exists df' before,
    fst (main low_draw reversed_order
           (run_on (config_of [pair_of "a" "b"])) fresh_world) = Some df' /\
    nrows df' = nrows table_ab /\ aligned df' /\
    log (snd (main low_draw reversed_order
                (run_on (config_of [pair_of "a" "b"])) fresh_world))
    = (before ++ [(INFO, Saved); (INFO, Completed)])%list.
Proof.
  apply (main_writes_on_good_input cell low_draw reversed_order
           reversed_order_every_row
           (run_on (config_of [pair_of "a" "b"])) fresh_world
           (config_of [pair_of "a" "b"]) table_ab).
  - reflexivity.
  - exists [(YStr "columns_to_swap", YList [pair_of "a" "b"])],
      [pair_of "a" "b"].
    repeat split. constructor; [now exists "a", "b" | constructor].
  - reflexivity.
  - reflexivity.
  - exact table_ab_aligned.
Defined.

Lemma bad_config_ignores_data_witness :
  main low_draw reversed_order (run_without_data string_config) fresh_world
  = main low_draw reversed_order (run_on string_config) fresh_world.
Proof.
  apply (bad_config_ignores_data cell low_draw reversed_order
           (run_on string_config) (run_without_data string_config)
           fresh_world).
  - reflexivity.
  - right. exists string_config. split; reflexivity.
Defined.

Lemma unhashable_name_aborts_witness :
  fst (validate_config list_name_config fresh_world) = true /\
  main low_draw reversed_order (run_on list_name_config) fresh_world
  = (None,
     World (draws fresh_world)
       (log fresh_world
        ++ [(INFO, Starting); (INFO, Loaded); (ERROR, ErrorOccurred);
            (ERROR, DetailedError); (INFO, Completed)])).
Proof.
  apply (unhashable_name_aborts cell low_draw reversed_order
           (run_on list_name_config) fresh_world
           (YList [YStr "a"]) (YStr "b") [pair_of "a" "b"] table_ab).
  - exact I.
  - constructor; [now exists (YStr "a"), (YStr "b") | constructor].
  - reflexivity.
  - reflexivity.
Defined.

Lemma main_with_only_missing_columns_witness :
  main low_draw reversed_order
    (run_on (config_of (pairs_of [("a", "zipcode")]))) fresh_world
  = (Some table_ab,
     World (draws fresh_world)
       (log fresh_world ++ [(INFO, Starting); (INFO, Loaded)]
        ++ map not_found_record [("a", "zipcode")]
        ++ [(INFO, Saved); (INFO, Completed)])%list).
Proof.
  apply (main_with_only_missing_columns cell low_draw reversed_order
           (run_on (config_of (pairs_of [("a", "zipcode")]))) fresh_world
           [("a", "zipcode")] table_ab).
  - reflexivity.
  - reflexivity.
  - reflexivity.
  - intros a b [[= <- <-] | []]. right. simpl.
    intros [H | [H | []]]; discriminate.
Defined.
